(* ===================================================================== *)
(*  tiny-front: runtime support of the tiny calculator compiler           *)
(*  Verification of tinyc/runtime/runtime.c (tiny_input, tiny_print)      *)
(* ===================================================================== *)
(*  The runtime is two thin wrappers over the C library's formatted
    console I/O.  The development has three layers:

      Platform   a model of the part of <stdio.h>/<inttypes.h> that the
                 runtime calls: the standard streams, printf, fflush and
                 scanf restricted to the integer conversions d and i;
      Runtime    the two functions of runtime.c, written in a state monad
                 over the streams, statement by statement;
      Reference  what the specification calls base-10 rendering and
                 base-10 parsing, written independently of the platform
                 model, so that the two can be compared.                  *)

From Stdlib Require Import ZArith List Ascii String Bool Lia.
From Stdlib Require Import DecimalString.
From Stdlib Require DecimalZ DecimalPos DecimalFacts.
From ExtLib Require Import Structures.Monad Structures.MonadState Data.Monads.StateMonad.
Import ListNotations.
Import MonadNotation.
Local Open Scope monad_scope.
Local Open Scope Z_scope.

(* ===================================================================== *)
(** * Definitions                                                         *)
(* ===================================================================== *)

(* --------------------------------------------------------------------- *)
(** ** Bytes and 64-bit integers                                          *)
(* --------------------------------------------------------------------- *)

(** Stream contents are sequences of bytes (C [char]). *)
Definition bytes := list ascii.

(** A C string literal. *)
Definition lit (s : string) : bytes := list_ascii_of_string s.

(** The newline character, written [\n] in C. *)
Definition nl : ascii := ascii_of_nat 10.

Definition INT64_MIN : Z := - 2 ^ 63.
Definition INT64_MAX : Z := 2 ^ 63 - 1.

(** The values of type [int64_t]. *)
Definition int64_range (z : Z) : Prop := INT64_MIN <= z <= INT64_MAX.

Definition int64_rangeb (z : Z) : bool := (INT64_MIN <=? z) && (z <=? INT64_MAX).

(** The content of an object of type [int64_t]: a local variable that was
    declared without initialiser holds an indeterminate value until it is
    assigned.  [Vundef] stands for every such value: that a call returns
    [Vundef] says that its result is indeterminate, not that two such
    results are the same; where the value itself matters the content of
    the local is a parameter (see [tiny_input_from]). *)
Inductive val : Type :=
| Vundef : val
| Vint : Z -> val.

(* --------------------------------------------------------------------- *)
(** ** Platform: the standard streams                                     *)
(* --------------------------------------------------------------------- *)

(** Buffering modes of a stream ([setvbuf]). *)
Inductive buf_mode : Type := IONBF | IOLBF | IOFBF.

(** Operations on the standard streams, in the order they happen. *)
Inductive event : Type :=
| EvWrite : bytes -> event        (* bytes submitted to stdout *)
| EvFlush : event                 (* fflush(stdout) *)
| EvScan  : bytes -> event.       (* one formatted read on stdin, with the bytes it consumed *)

(** The console as the process sees it.  [stdin_rest] is everything that
    will ever arrive on standard input and has not been consumed yet; its
    end is end-of-stream. *)
Record world : Type := mkWorld {
  stdin_rest  : bytes;
  stdout_mode : buf_mode;
  stdout_buf  : bytes;            (* submitted, still in the stream's buffer *)
  stdout_dev  : bytes;            (* already delivered to the device *)
  trace       : list event
}.

(** Everything submitted to standard output so far. *)
Definition stdout_all (w : world) : bytes := stdout_dev w ++ stdout_buf w.

Definition is_nl (c : ascii) : bool := Ascii.eqb c nl.

(** Splits a pending buffer at its last newline: the part up to and
    including that newline, and the rest. *)
Fixpoint split_last_nl (b : bytes) : bytes * bytes :=
  match b with
  | [] => ([], [])
  | c :: r =>
      let '(pre, post) := split_last_nl r in
      if existsb is_nl (c :: r)
      then (c :: pre, post)
      else ([], c :: r)
  end.

(** Submitting bytes to stdout: an unbuffered stream delivers at once, a
    line-buffered one delivers through the last newline, a fully buffered
    one keeps everything until it is flushed.  The buffer is taken without
    bound: a real one is written out when it fills, so in the fully
    buffered mode [stdout_dev] holds no more than what was delivered, and
    only [stdout_all] and what holds after a flush are stated of it. *)
Definition stream_write (bs : bytes) (w : world) : world :=
  let pending := stdout_buf w ++ bs in
  let '(now, later) :=
    match stdout_mode w with
    | IONBF => (pending, [])
    | IOLBF => split_last_nl pending
    | IOFBF => ([], pending)
    end in
  mkWorld (stdin_rest w) (stdout_mode w) later (stdout_dev w ++ now)
          (trace w ++ [EvWrite bs]).

(** [fflush(stdout)]. *)
Definition fflush_stdout : state world unit :=
  w <- get ;;
  put (mkWorld (stdin_rest w) (stdout_mode w) [] (stdout_dev w ++ stdout_buf w)
               (trace w ++ [EvFlush])).

(* --------------------------------------------------------------------- *)
(** ** Platform: format strings                                           *)
(* --------------------------------------------------------------------- *)

(** <inttypes.h> on an LP64 platform, where [int64_t] is [long]: the
    macro expands to the length modifier [l] and the specifier [i].  (On
    platforms where [int64_t] is [long long] it is ["lli"], which denotes
    the same directive below.) *)
Definition PRIi64 : string := "li".

(** The integer conversion specifiers the runtime can reach. *)
Inductive conv : Type := ConvD | ConvI.

Inductive directive : Type :=
| DChar : ascii -> directive       (* an ordinary character *)
| DInt  : conv -> directive        (* %d, %i, with length modifier l or ll *)
| DBad  : directive.               (* any other conversion: not modelled *)

Definition conv_of_char (c : ascii) : option conv :=
  if Ascii.eqb c "d" then Some ConvD
  else if Ascii.eqb c "i" then Some ConvI
  else None.

(** What a conversion specification denotes, given its specifier and
    whether a length modifier came before it ([%%] takes none). *)
Definition conv_directive (modified : bool) (c : ascii) : directive :=
  match conv_of_char c with
  | Some k => DInt k
  | None => if Ascii.eqb c "%" && negb modified then DChar "%" else DBad
  end.

(** Where the scan of a format string stands: in ordinary text, after a
    [%], after [%l], after [%ll]. *)
Inductive fstate : Type := FText | FPercent | FLong | FLongLong.

(** The directives of a format string. *)
Fixpoint parse_format (st : fstate) (fmt : bytes) : list directive :=
  match fmt with
  | [] => match st with FText => [] | _ => [DBad] end
  | c :: r =>
      match st with
      | FText =>
          if Ascii.eqb c "%" then parse_format FPercent r
          else DChar c :: parse_format FText r
      | FPercent =>
          if Ascii.eqb c "l" then parse_format FLong r
          else conv_directive false c :: parse_format FText r
      | FLong =>
          if Ascii.eqb c "l" then parse_format FLongLong r
          else conv_directive true c :: parse_format FText r
      | FLongLong => conv_directive true c :: parse_format FText r
      end
  end.

(* --------------------------------------------------------------------- *)
(** ** Platform: printf                                                   *)
(* --------------------------------------------------------------------- *)

(** The character of a digit value below ten. *)
Definition digit_char (d : Z) : ascii := ascii_of_nat (48 + Z.to_nat d).

(** The digit loop of the C library's integer formatting,
    [do *--p = digits[value % 10]; while ((value /= 10) != 0);],
    on an unsigned word.  The work buffer is filled from its end; [fuel]
    bounds the iterations and [None] means it did not suffice. *)
Fixpoint itoa_loop (fuel : nat) (value : Z) (buf : bytes) : option bytes :=
  match fuel with
  | O => None
  | S fuel' =>
      let buf' := digit_char (value mod 10) :: buf in
      let value' := value / 10 in
      if value' =? 0 then Some buf' else itoa_loop fuel' value' buf'
  end.

(** A 64-bit word has at most twenty decimal digits. *)
Definition itoa_word (value : Z) : bytes :=
  match itoa_loop 20 value [] with
  | Some b => b
  | None => []
  end.

(** Conversion of one [int64_t] argument by [%d] or [%i] without flags,
    width or precision: the sign is taken off, the magnitude is negated
    in unsigned 64-bit arithmetic, and its digits follow a minus sign. *)
Definition fmt_signed (x : Z) : bytes :=
  let is_negative := x <? 0 in
  let word := if is_negative then (0 - x) mod 2 ^ 64 else x mod 2 ^ 64 in
  (if is_negative then ["-"%char] else []) ++ itoa_word word.

(** The bytes a list of directives produces from the arguments.  A
    conversion without argument, or one that is not modelled, ends the
    output there. *)
Fixpoint format_output (ds : list directive) (args : list Z) : bytes :=
  match ds with
  | [] => []
  | DChar c :: ds' => c :: format_output ds' args
  | DInt _ :: ds' =>
      match args with
      | x :: args' => fmt_signed x ++ format_output ds' args'
      | [] => []
      end
  | DBad :: _ => []
  end.

(** [printf(fmt, args...)]: one write of the formatted bytes to stdout. *)
Definition printf (fmt : bytes) (args : list Z) : state world unit :=
  w <- get ;;
  put (stream_write (format_output (parse_format FText fmt) args) w).

(* --------------------------------------------------------------------- *)
(** ** Platform: scanf                                                    *)
(* --------------------------------------------------------------------- *)

(** The numeric conversions of [scanf] as the GNU C library performs
    them (ISO C 7.21.6.2 for the common part):
    - white space is skipped first; at end of stream the conversion is an
      input failure and the call returns [EOF];
    - an optional sign is read, then the number.  [%d] reads decimal
      digits.  [%i] takes the base from the prefix as [strtol] does with
      base 0: [0x] or [0X] announces hexadecimal, any other leading [0]
      octal, anything else decimal;
    - the number ends at the first character that is not a digit of the
      base, which stays on the stream;
    - when no digit was read the conversion is a matching failure, the
      pointer argument is not written and the call returns 0.  The
      leading [0] of a prefix is a digit read: [0x] without hexadecimal
      digit after it converts to zero;
    - the digits are converted as by [strtol], which returns the nearest
      bound of the type when the number does not fit (ISO C leaves this
      case undefined). *)

(** [isspace] in the C locale: space, and the controls from tab to
    carriage return. *)
Definition isspace (c : ascii) : bool :=
  let n := nat_of_ascii c in
  Nat.eqb n 32 || (Nat.leb 9 n && Nat.leb n 13).

(** White space is skipped before a numeric conversion; the first
    character that is not white space is pushed back. *)
Fixpoint skip_space (inp : bytes) : bytes :=
  match inp with
  | [] => []
  | c :: r => if isspace c then skip_space r else inp
  end.

(** The value of a character as a digit, up to base sixteen. *)
Definition digit_value (c : ascii) : option Z :=
  let n := Z.of_nat (nat_of_ascii c) in
  if (48 <=? n) && (n <=? 57) then Some (n - 48)
  else if (97 <=? n) && (n <=? 102) then Some (n - 87)
  else if (65 <=? n) && (n <=? 70) then Some (n - 55)
  else None.

Definition is_digit_in (base : Z) (c : ascii) : bool :=
  match digit_value c with
  | Some d => d <? base
  | None => false
  end.

(** The longest run of digits of the base at the head of the input, and
    what follows it. *)
Fixpoint read_digits (base : Z) (inp : bytes) : bytes * bytes :=
  match inp with
  | [] => ([], [])
  | c :: r =>
      if is_digit_in base c
      then let '(ds, rest) := read_digits base r in (c :: ds, rest)
      else ([], inp)
  end.

(** The number a run of digits denotes in the base. *)
Definition digits_to_Z (base : Z) (ds : bytes) : Z :=
  fold_left (fun acc c =>
               match digit_value c with
               | Some d => acc * base + d
               | None => acc
               end) ds 0.

(** [strtol] returns the nearest bound when the number does not fit. *)
Definition clamp64 (z : Z) : Z :=
  if z <? INT64_MIN then INT64_MIN
  else if INT64_MAX <? z then INT64_MAX
  else z.

(** How one numeric conversion ends: the stream was at its end (input
    failure), the input does not start a number (matching failure), or a
    number was converted. *)
Inductive scan_outcome : Type :=
| ScanEOF : scan_outcome
| ScanMismatch : scan_outcome
| ScanValue : Z -> scan_outcome.

Definition is_sign (c : ascii) : bool := Ascii.eqb c "-" || Ascii.eqb c "+".
Definition is_x (c : ascii) : bool := Ascii.eqb c "x" || Ascii.eqb c "X".

(** The base of a conversion specifier: [%d] reads base ten, [%i] takes
    the base from the prefix of the number (written 0 here, as for
    [strtol]). *)
Definition conv_base (k : conv) : Z :=
  match k with
  | ConvD => 10
  | ConvI => 0
  end.

(** The base announced by the head of the digits, whether a leading zero
    was taken into the number, and the input after the prefix.  A leading
    [0] always belongs to the number; an [x] after it is consumed only
    when the base is open or sixteen. *)
Definition scan_prefix (base0 : Z) (inp : bytes) : Z * bool * bytes :=
  match inp with
  | c0 :: r0 =>
      if Ascii.eqb c0 "0" then
        match r0 with
        | cx :: rx =>
            if is_x cx then
              if (base0 =? 0) || (base0 =? 16) then (16, true, rx)
              else (base0, true, r0)
            else ((if base0 =? 0 then 8 else base0), true, r0)
        | [] => ((if base0 =? 0 then 8 else base0), true, r0)
        end
      else (base0, false, inp)
  | [] => (base0, false, inp)
  end.

(** The number after the sign: the base prefix, then the digits of the
    base.  There is no number when no digit at all was read, the leading
    zero of a prefix counting as one.  Returns the magnitude, if any, and
    the unread input. *)
Definition scan_unsigned (base0 : Z) (inp : bytes) : option Z * bytes :=
  let '(base, lead0, s2) := scan_prefix base0 inp in
  let base := if base =? 0 then 10 else base in
  let '(ds, s3) := read_digits base s2 in
  match ds, lead0 with
  | [], false => (None, s3)
  | _, _ => (Some (digits_to_Z base ds), s3)
  end.

(** One numeric conversion on the input (white space already skipped):
    an optional sign, then the number.  The sign is consumed even when
    the conversion fails.  Returns the outcome and the unread input. *)
Definition scan_int (base0 : Z) (inp : bytes) : scan_outcome * bytes :=
  match inp with
  | [] => (ScanEOF, [])
  | c :: r =>
      let negative := Ascii.eqb c "-" in
      let s1 := if is_sign c then r else inp in
      match scan_unsigned base0 s1 with
      | (None, s3) => (ScanMismatch, s3)
      | (Some magnitude, s3) =>
          (ScanValue (clamp64 (if negative then - magnitude else magnitude)), s3)
      end
  end.

(** The value [EOF] of <stdio.h>. *)
Definition EOF : Z := -1.

(** What [scanf] returns when it stops: the number of items assigned, or
    [EOF] for an input failure before the first assignment. *)
Definition scan_count (stored : list Z) (input_failure : bool) : Z :=
  match stored with
  | [] => if input_failure then EOF else 0
  | _ => Z.of_nat (List.length stored)
  end.

(** Runs the directives of a format over the input.  Returns the value of
    the call, the values assigned through the pointer arguments in order,
    and the unread input. *)
Fixpoint scan_directives (ds : list directive) (inp : bytes) (stored : list Z)
  : Z * list Z * bytes :=
  match ds with
  | [] => (scan_count stored false, stored, inp)
  | DChar c :: ds' =>
      if isspace c then scan_directives ds' (skip_space inp) stored
      else
        match inp with
        | [] => (scan_count stored true, stored, [])
        | c' :: r =>
            if Ascii.eqb c c' then scan_directives ds' r stored
            else (scan_count stored false, stored, inp)
        end
  | DInt k :: ds' =>
      match scan_int (conv_base k) (skip_space inp) with
      | (ScanValue z, r) => scan_directives ds' r (stored ++ [z])
      | (ScanMismatch, r) => (scan_count stored false, stored, r)
      | (ScanEOF, r) => (scan_count stored true, stored, r)
      end
  | DBad :: _ => (scan_count stored false, stored, inp)
  end.

(** [scanf(fmt, ptrs...)]: one formatted read on stdin.  The result is
    the value of the call with the values it assigned. *)
Definition scanf (fmt : bytes) : state world (Z * list Z) :=
  w <- get ;;
  let '(n, stored, rest) :=
    scan_directives (parse_format FText fmt) (stdin_rest w) [] in
  put (mkWorld rest (stdout_mode w) (stdout_buf w) (stdout_dev w)
               (trace w ++ [EvScan (firstn (List.length (stdin_rest w) - List.length rest)
                                           (stdin_rest w))])) ;;
  ret (n, stored).

(** The store through a pointer argument: the object takes the first
    value assigned by the call and is left as it was when there is none. *)
Definition stored_through (x : val) (stored : list Z) : val :=
  match stored with
  | v :: _ => Vint v
  | [] => x
  end.

(* --------------------------------------------------------------------- *)
(** ** Runtime: tinyc/runtime/runtime.c                                   *)
(* --------------------------------------------------------------------- *)

(** <<
    int64_t tiny_input() {
      int64_t x;
      printf("Input: ");
      fflush(stdout);
      scanf("%"PRIi64, &x);
      return x;
    }
    >> *)
Definition tiny_input : state world val :=
  let x := Vundef in
  printf (lit "Input: ") [] ;;
  fflush_stdout ;;
  r <- scanf (lit "%" ++ lit PRIi64) ;;
  let x := stored_through x (snd r) in
  ret x.

(** <<
    void tiny_print(int64_t x) {
      printf("Output: %"PRIi64"\n", x);
    }
    >> *)
Definition tiny_print (x : Z) : state world unit :=
  printf (lit "Output: %" ++ lit PRIi64 ++ [nl]) [x].

(** A console with the given pending input and nothing written yet. *)
Definition console (mode : buf_mode) (input : bytes) : world :=
  mkWorld input mode [] [] [].

(** The same console with other pending input. *)
Definition with_stdin (w : world) (input : bytes) : world :=
  mkWorld input (stdout_mode w) (stdout_buf w) (stdout_dev w) (trace w).

(** The value of the [scanf] call inside [tiny_input], which the function
    discards: the function is the three statements before it followed by
    that call. *)
Definition tiny_input_read : state world (Z * list Z) :=
  printf (lit "Input: ") [] ;;
  fflush_stdout ;;
  scanf (lit "%" ++ lit PRIi64).

(** The world in which the read of [tiny_input] starts. *)
Definition before_read (w : world) : world :=
  execState (printf (lit "Input: ") [] ;; fflush_stdout) w.

Definition is_scan (e : event) : bool :=
  match e with EvScan _ => true | _ => false end.

Definition is_flush (e : event) : bool :=
  match e with EvFlush => true | _ => false end.

Definition is_write_of (bs : bytes) (e : event) : bool :=
  match e with
  | EvWrite b => if list_eq_dec ascii_dec b bs then true else false
  | _ => false
  end.

Definition count_events (p : event -> bool) (t : list event) : nat :=
  List.length (filter p t).

(* --------------------------------------------------------------------- *)
(** ** Reference: base-10 rendering and parsing                           *)
(* --------------------------------------------------------------------- *)

Definition is_dec_digit (c : ascii) : bool :=
  let n := nat_of_ascii c in Nat.leb 48 n && Nat.leb n 57.

Definition dec_digit_value (c : ascii) : Z := Z.of_nat (nat_of_ascii c) - 48.

(** The number a string of decimal digits denotes. *)
Definition dec_value (ds : bytes) : Z :=
  fold_left (fun acc c => 10 * acc + dec_digit_value c) ds 0.

Definition all_dec_digits (ds : bytes) : bool :=
  match ds with
  | [] => false
  | _ => forallb is_dec_digit ds
  end.

(** Standard base-10 parsing of a whole string: an optional sign, then
    one or more decimal digits and nothing else. *)
Definition parse_decimal (s : bytes) : option Z :=
  match s with
  | [] => None
  | c :: r =>
      if Ascii.eqb c "-" then
        if all_dec_digits r then Some (- dec_value r) else None
      else if Ascii.eqb c "+" then
        if all_dec_digits r then Some (dec_value r) else None
      else
        if all_dec_digits s then Some (dec_value s) else None
  end.

(** Digits without leading zero: the single digit 0, or digits that start
    with a digit from 1 to 9. *)
Definition canonical_digits (ds : bytes) : bool :=
  match ds with
  | [] => false
  | [d] => is_dec_digit d
  | d :: r => is_dec_digit d && negb (Ascii.eqb d "0") && forallb is_dec_digit r
  end.

(** The shape of a base-10 rendering: a minus sign exactly for a negative
    number, then its digits without leading zero, and nothing else: no
    plus sign, no padding, no white space, no minus zero. *)
Definition canonical_decimal (s : bytes) : bool :=
  match s with
  | c :: r =>
      if Ascii.eqb c "-"
      then canonical_digits r && negb (dec_value r =? 0)
      else canonical_digits s
  | [] => false
  end.

(** The base-10 rendering of an integer, as the standard library of the
    prover prints it. *)
Definition decimal (x : Z) : bytes :=
  list_ascii_of_string (NilZero.string_of_int (Z.to_int x)).

(** The longest run of decimal digits at the head of the input. *)
Fixpoint take_dec_digits (inp : bytes) : bytes :=
  match inp with
  | c :: r => if is_dec_digit c then c :: take_dec_digits r else []
  | [] => []
  end.

(** The next token of the input read as a signed decimal integer: after
    white space, an optional sign and the digits that follow it. *)
Definition decimal_token (inp : bytes) : bytes :=
  match skip_space inp with
  | c :: r => if is_sign c then c :: take_dec_digits r
              else take_dec_digits (c :: r)
  | [] => []
  end.

(** The digits of a token, without its sign. *)
Definition token_digits (tok : bytes) : bytes :=
  match tok with
  | c :: r => if is_sign c then r else tok
  | [] => []
  end.

(** What follows the token on the input. *)
Definition after_token (inp : bytes) : bytes :=
  skipn (List.length (decimal_token inp)) (skip_space inp).

(** A token written the plain way: its digits have no leading zero, and
    it is not a 0 that an x or X follows at once. *)
Definition plain_token (inp : bytes) : bool :=
  canonical_digits (token_digits (decimal_token inp)) &&
  negb (match token_digits (decimal_token inp), after_token inp with
        | [d], c :: _ => Ascii.eqb d "0" && is_x c
        | _, _ => false
        end).

(** Reading one signed decimal integer from the input, in the words of
    the specification: [None] when the stream is exhausted or the next
    token is not a valid signed decimal integer, its value otherwise. *)
Definition read_decimal (inp : bytes) : option Z :=
  parse_decimal (decimal_token inp).

(* --------------------------------------------------------------------- *)
(** ** Notions used by the statements                                     *)
(* --------------------------------------------------------------------- *)

(** What the digit loop leaves in front of the buffer. *)
Definition digits_of (v : Z) (ds : bytes) : Prop :=
  forallb is_dec_digit ds = true /\
  ds <> [] /\
  (v <> 0 -> hd "0"%char ds <> "0"%char) /\
  (v = 0 -> ds = ["0"%char]) /\
  dec_value ds = v.

Definition dec_step (acc : Z) (c : ascii) : Z := 10 * acc + dec_digit_value c.

(** What the read of [tiny_input] does with the input: white space is
    skipped, one number is scanned with the base taken from its prefix. *)
Definition read_outcome (inp : bytes) : scan_outcome * bytes :=
  scan_int 0 (skip_space inp).

(** The result of [tiny_input]: the local variable after the read. *)
Definition read_result (o : scan_outcome) : val :=
  match o with
  | ScanValue z => Vint z
  | _ => Vundef
  end.

(** The value of the discarded [scanf] call. *)
Definition read_status (o : scan_outcome) : Z :=
  match o with
  | ScanValue _ => 1
  | ScanMismatch => 0
  | ScanEOF => EOF
  end.

(** The input after an optional sign. *)
Definition after_sign (c : ascii) (r : bytes) : bytes :=
  if is_sign c then r else c :: r.

Definition signed (c : ascii) (m : Z) : Z :=
  if Ascii.eqb c "-" then - m else m.

Definition is_write (e : event) : bool :=
  match e with EvWrite _ => true | _ => false end.

(** The events one call of [tiny_input] adds to the history. *)
Definition input_events (w : world) : list event :=
  [EvWrite (lit "Input: "); EvFlush;
   EvScan (firstn (List.length (stdin_rest w)
                   - List.length (snd (read_outcome (stdin_rest w))))
                  (stdin_rest w))].

(** The claim about the read as the specification states it: the read
    fails exactly when the stream is exhausted or the next token is not a
    valid signed decimal integer, and on success the call returns the
    value of that token. *)
Definition read_claim_as_stated (inp : bytes) : Prop :=
  let w := console IOLBF inp in
  (fst (evalState tiny_input_read w) <> 1 <-> read_decimal inp = None) /\
  (forall v, read_decimal inp = Some v -> evalState tiny_input w = Vint v).

(* --------------------------------------------------------------------- *)
(** ** Notions used by the further properties                             *)
(* --------------------------------------------------------------------- *)

(** [n] calls of [tiny_input] in a row, with the values they return. *)
Fixpoint tiny_input_times (n : nat) : state world (list val) :=
  match n with
  | O => ret []
  | S k =>
      v <- tiny_input ;;
      vs <- tiny_input_times k ;;
      ret (v :: vs)
  end.

(** Lines of text, each the base-10 rendering of a number and a newline. *)
Definition decimal_lines (xs : list Z) : bytes :=
  List.concat (map (fun x => decimal x ++ [nl]) xs).

(** Whether the input starts with a character of a class. *)
Definition starts_with (p : ascii -> bool) (s : bytes) : bool :=
  match s with
  | c :: _ => p c
  | [] => false
  end.

(** The character of a digit value below sixteen, in lower or upper
    case. *)
Definition hex_char (d : Z * bool) : ascii :=
  let '(v, upper) := d in
  if v <? 10 then ascii_of_nat (48 + Z.to_nat v)
  else if upper then ascii_of_nat (55 + Z.to_nat v)
  else ascii_of_nat (87 + Z.to_nat v).

(** The number that digit values denote in a base. *)
Definition horner (base : Z) (vs : list Z) : Z :=
  fold_left (fun acc v => acc * base + v) vs 0.

Definition digit_below (base : Z) (d : Z * bool) : bool :=
  (0 <=? fst d) && (fst d <? base).

(** An optional sign, as written on the input. *)
Definition sign_bytes (s : option bool) : bytes :=
  match s with
  | None => []
  | Some true => ["-"%char]
  | Some false => ["+"%char]
  end.

Definition apply_sign (s : option bool) (m : Z) : Z :=
  match s with
  | Some true => - m
  | _ => m
  end.

(** The number of newlines in a sequence of bytes. *)
Definition count_nl (bs : bytes) : nat := List.length (filter is_nl bs).

(** The input a failed read leaves: the input after its white space and
    after one sign, when a sign stands there. *)
Definition after_failure (inp : bytes) : bytes :=
  match skip_space inp with
  | [] => []
  | c :: r => after_sign c r
  end.

(** Printing a list of numbers, one call of [tiny_print] each. *)
Fixpoint tiny_print_all (xs : list Z) : state world unit :=
  match xs with
  | [] => ret tt
  | x :: r => tiny_print x ;; tiny_print_all r
  end.

(** The lines [tiny_print] is expected to produce for a list of numbers. *)
Definition output_lines (xs : list Z) : bytes :=
  List.concat (map (fun x => lit "Output: " ++ decimal x ++ [nl]) xs).


(* --------------------------------------------------------------------- *)
(** ** The unassigned local, made explicit                                *)
(* --------------------------------------------------------------------- *)

(** [tiny_input] with the content of the local [x] at its declaration as
    a parameter.  The declaration [int64_t x;] writes nothing, so in a
    run of the program [x] starts with whatever its storage holds;
    [tiny_input] is the case where nothing is known of it. *)
Definition tiny_input_from (x0 : val) : state world val :=
  let x := x0 in
  printf (lit "Input: ") [] ;;
  fflush_stdout ;;
  r <- scanf (lit "%" ++ lit PRIi64) ;;
  let x := stored_through x (snd r) in
  ret x.

(** The claim on the input function as the specification states it: what
    a call returns depends on the pending input only. *)
Definition input_depends_on_stream_only : Prop :=
  forall (x1 x2 : val) (w1 w2 : world),
    stdin_rest w1 = stdin_rest w2 ->
    evalState (tiny_input_from x1) w1 = evalState (tiny_input_from x2) w2.

(* ===================================================================== *)
(** * Properties                                                          *)
(* ===================================================================== *)

(* --------------------------------------------------------------------- *)
(** ** The standard streams                                               *)
(* --------------------------------------------------------------------- *)

Section Streams.

Variable w : world.

Lemma split_last_nl_app (b : bytes) :
  fst (split_last_nl b) ++ snd (split_last_nl b) = b.
Proof.
  induction b as [|c r IH]; [reflexivity|].
  cbn [split_last_nl]. destruct (split_last_nl r) as [pre post].
  destruct (existsb is_nl (c :: r)); cbn in *; [now rewrite IH | reflexivity].
Qed.

(** Whatever the buffering mode, a write appends its bytes to what was
    submitted, and only moves bytes from the buffer to the device. *)
Lemma stream_write_all (bs : bytes) :
  stdout_all (stream_write bs w) = stdout_all w ++ bs.
Proof.
  unfold stdout_all, stream_write.
  destruct (stdout_mode w); cbn.
  - now rewrite app_nil_r, app_assoc.
  - pose proof (split_last_nl_app (stdout_buf w ++ bs)) as H.
    destruct (split_last_nl (stdout_buf w ++ bs)) as [now later]; cbn in *.
    now rewrite <- app_assoc, H, app_assoc.
  - now rewrite app_nil_r, app_assoc.
Qed.

Lemma stream_write_stdin (bs : bytes) :
  stdin_rest (stream_write bs w) = stdin_rest w.
Proof.
  unfold stream_write.
  destruct (match stdout_mode w with
            | IONBF => _ | IOLBF => _ | IOFBF => _ end); reflexivity.
Qed.

Lemma stream_write_trace (bs : bytes) :
  trace (stream_write bs w) = trace w ++ [EvWrite bs].
Proof.
  unfold stream_write.
  destruct (match stdout_mode w with
            | IONBF => _ | IOLBF => _ | IOFBF => _ end); reflexivity.
Qed.

Lemma stream_write_mode (bs : bytes) :
  stdout_mode (stream_write bs w) = stdout_mode w.
Proof.
  unfold stream_write.
  destruct (match stdout_mode w with
            | IONBF => _ | IOLBF => _ | IOFBF => _ end); reflexivity.
Qed.

Lemma run_printf (fmt : bytes) (args : list Z) :
  runState (printf fmt args) w
  = (tt, stream_write (format_output (parse_format FText fmt) args) w).
Proof. reflexivity. Qed.

Lemma run_fflush :
  runState fflush_stdout w
  = (tt, mkWorld (stdin_rest w) (stdout_mode w) [] (stdout_all w)
                 (trace w ++ [EvFlush])).
Proof. reflexivity. Qed.

End Streams.

(** The format of [tiny_print] is the label, one integer conversion and a
    newline; the format of the read is one integer conversion [%i]. *)
Lemma tiny_print_format :
  parse_format FText (lit "Output: %" ++ lit PRIi64 ++ [nl])
  = map DChar (lit "Output: ") ++ [DInt ConvI; DChar nl].
Proof. reflexivity. Qed.

Lemma tiny_input_format :
  parse_format FText (lit "%" ++ lit PRIi64) = [DInt ConvI].
Proof. reflexivity. Qed.

Remark long_long_format :
  parse_format FText (lit "Output: %lli" ++ [nl])
    = parse_format FText (lit "Output: %" ++ lit PRIi64 ++ [nl]) /\
  parse_format FText (lit "%lli") = parse_format FText (lit "%" ++ lit PRIi64).
Proof. split; reflexivity. Qed.

Lemma run_tiny_print (x : Z) (w : world) :
  runState (tiny_print x) w
  = (tt, stream_write (lit "Output: " ++ fmt_signed x ++ [nl]) w).
Proof.
  unfold tiny_print. rewrite run_printf, tiny_print_format.
  reflexivity.
Qed.

(* --------------------------------------------------------------------- *)
(** ** Decimal digits                                                     *)
(* --------------------------------------------------------------------- *)

Lemma small_digit_cases (d : Z) :
  0 <= d < 10 ->
  d = 0 \/ d = 1 \/ d = 2 \/ d = 3 \/ d = 4 \/ d = 5 \/ d = 6 \/ d = 7 \/ d = 8 \/ d = 9.
Proof. lia. Qed.

Ltac each_digit d H :=
  let K := fresh in
  pose proof (small_digit_cases d H) as K;
  repeat (destruct K as [K|K]; [subst d|]); [..|subst d].

Lemma digit_char_is_digit (d : Z) :
  0 <= d < 10 -> is_dec_digit (digit_char d) = true.
Proof. intros H. each_digit d H; reflexivity. Qed.

Lemma digit_char_value (d : Z) :
  0 <= d < 10 -> dec_digit_value (digit_char d) = d.
Proof. intros H. each_digit d H; reflexivity. Qed.

Lemma digit_char_zero (d : Z) :
  0 <= d < 10 -> digit_char d = "0"%char -> d = 0.
Proof. intros H. each_digit d H; intros E; try reflexivity; discriminate E. Qed.

Lemma dec_digit_value_range (c : ascii) :
  is_dec_digit c = true -> 0 <= dec_digit_value c < 10.
Proof.
  unfold is_dec_digit, dec_digit_value. cbv zeta. intros H.
  apply andb_true_iff in H. destruct H as [H1 H2].
  apply Nat.leb_le in H1. apply Nat.leb_le in H2. lia.
Qed.

Lemma dec_digit_char_inv (c : ascii) :
  is_dec_digit c = true -> digit_char (dec_digit_value c) = c.
Proof.
  intros H. unfold digit_char, dec_digit_value.
  unfold is_dec_digit in H. cbv zeta in H.
  apply andb_true_iff in H. destruct H as [H1 H2].
  apply Nat.leb_le in H1. apply Nat.leb_le in H2.
  replace (48 + Z.to_nat (Z.of_nat (nat_of_ascii c) - 48))%nat
    with (nat_of_ascii c) by lia.
  apply ascii_nat_embedding.
Qed.

Lemma dec_value_snoc (ds : bytes) (c : ascii) :
  dec_value (ds ++ [c]) = 10 * dec_value ds + dec_digit_value c.
Proof. unfold dec_value. now rewrite fold_left_app. Qed.

Lemma dec_value_single (c : ascii) : dec_value [c] = dec_digit_value c.
Proof. reflexivity. Qed.

(** Digits only raise the accumulator of the evaluation. *)
Lemma dec_fold_ge (ds : bytes) (acc : Z) :
  forallb is_dec_digit ds = true -> 0 <= acc ->
  acc <= fold_left (fun a c => 10 * a + dec_digit_value c) ds acc.
Proof.
  revert acc.
  induction ds as [|c r IH]; intros acc Hd Hacc; cbn [fold_left forallb] in *; [lia|].
  apply andb_true_iff in Hd. destruct Hd as [Hc Hr].
  pose proof (dec_digit_value_range c Hc).
  specialize (IH (10 * acc + dec_digit_value c) Hr). lia.
Qed.

Lemma dec_value_nonneg (ds : bytes) :
  forallb is_dec_digit ds = true -> 0 <= dec_value ds.
Proof. intros H. apply (dec_fold_ge ds 0 H). lia. Qed.

(** Digits that start with a digit other than 0 denote a positive number. *)
Lemma dec_value_pos (c : ascii) (r : bytes) :
  forallb is_dec_digit (c :: r) = true -> c <> "0"%char ->
  0 < dec_value (c :: r).
Proof.
  intros H Hc. cbn in H. apply andb_true_iff in H. destruct H as [H1 H2].
  unfold dec_value. cbn [fold_left].
  pose proof (dec_digit_value_range c H1) as Hv.
  assert (dec_digit_value c <> 0) as Hnz.
  { intros E. apply Hc. rewrite <- (dec_digit_char_inv c H1), E. reflexivity. }
  pose proof (dec_fold_ge r (10 * 0 + dec_digit_value c) H2). lia.
Qed.

(* --------------------------------------------------------------------- *)
(** ** The digit loop of printf                                           *)
(* --------------------------------------------------------------------- *)

Lemma itoa_loop_step (fuel : nat) (v : Z) (buf : bytes) :
  itoa_loop (S fuel) v buf
  = if v / 10 =? 0 then Some (digit_char (v mod 10) :: buf)
    else itoa_loop fuel (v / 10) (digit_char (v mod 10) :: buf).
Proof. reflexivity. Qed.

(** The loop ends before its fuel does when the fuel is at least the
    number of digits, and then it has written the digits of the value. *)
Lemma itoa_loop_digits (fuel : nat) :
  forall (v : Z) (buf : bytes),
    0 <= v < 10 ^ Z.of_nat (S fuel) ->
    exists ds, itoa_loop (S fuel) v buf = Some (ds ++ buf) /\ digits_of v ds.
Proof.
  induction fuel as [|fuel IH]; intros v buf Hv;
    rewrite itoa_loop_step;
    assert (0 <= v mod 10 < 10) as Hm by (apply Z.mod_pos_bound; lia);
    assert (v = 10 * (v / 10) + v mod 10) as Hdiv by (apply Z.div_mod; lia);
    (destruct (Z.eqb_spec (v / 10) 0) as [Hq|Hq];
     [ exists [digit_char (v mod 10)]; split; [reflexivity|];
       assert (v mod 10 = v) as Hs by lia; rewrite Hs in *;
       repeat split;
       [ cbn [forallb]; now rewrite digit_char_is_digit
       | discriminate
       | cbn [hd]; intros Hnz E; apply Hnz; now apply digit_char_zero
       | intros ->; reflexivity
       | rewrite dec_value_single; now apply digit_char_value ]
     | ]).
  - change (10 ^ Z.of_nat 1) with 10 in Hv.
    assert (v / 10 = 0) by (apply Z.div_small; lia). contradiction.
  - assert (0 <= v / 10 < 10 ^ Z.of_nat (S fuel)) as Hq'.
    { split; [apply Z.div_pos; lia|].
      apply Z.div_lt_upper_bound; [lia|].
      rewrite (Nat2Z.inj_succ (S fuel)), Z.pow_succ_r in Hv; lia. }
    destruct (IH (v / 10) (digit_char (v mod 10) :: buf) Hq')
      as (ds & Hrun & Hall & Hne & Hhd & _ & Hval).
    exists (ds ++ [digit_char (v mod 10)]). split.
    { rewrite Hrun. now rewrite <- app_assoc. }
    repeat split.
    + rewrite forallb_app, Hall. cbn [forallb]. now rewrite digit_char_is_digit.
    + destruct ds; discriminate.
    + intros _. destruct ds as [|c r]; [contradiction|]. cbn. now apply Hhd.
    + intros ->. cbn in Hq. contradiction.
    + rewrite dec_value_snoc, Hval, digit_char_value by assumption. lia.
Qed.

Lemma itoa_word_digits (v : Z) :
  0 <= v < 2 ^ 64 -> digits_of v (itoa_word v).
Proof.
  intros Hv. unfold itoa_word.
  destruct (itoa_loop_digits 19 v []) as (ds & Hrun & Hds).
  { change (10 ^ Z.of_nat 20) with 100000000000000000000.
    change (2 ^ 64) with 18446744073709551616 in Hv. lia. }
  rewrite Hrun, app_nil_r. exact Hds.
Qed.

Lemma digits_of_canonical (v : Z) (ds : bytes) :
  digits_of v ds -> canonical_digits ds = true.
Proof.
  intros (Hall & Hne & Hhd & Hz & Hval).
  destruct ds as [|c [|c' r]]; [contradiction| |].
  - cbn in *. now rewrite andb_true_r in Hall.
  - assert (v <> 0) as Hnz by (intros E; specialize (Hz E); discriminate).
    specialize (Hhd Hnz). cbn [hd] in Hhd.
    cbn [canonical_digits]. cbn [forallb] in Hall.
    apply andb_true_iff in Hall. destruct Hall as [Hc Hr].
    rewrite Hc. cbn [andb].
    destruct (Ascii.eqb_spec c "0"); [contradiction|]. exact Hr.
Qed.

(* --------------------------------------------------------------------- *)
(** ** Agreement with the decimal numbers of the standard library         *)
(* --------------------------------------------------------------------- *)

Lemma dec_digit_cases (c : ascii) :
  is_dec_digit c = true ->
  (c = "0" \/ c = "1" \/ c = "2" \/ c = "3" \/ c = "4" \/
   c = "5" \/ c = "6" \/ c = "7" \/ c = "8" \/ c = "9")%char.
Proof.
  intros H. rewrite <- (dec_digit_char_inv c H).
  pose proof (dec_digit_value_range c H) as R.
  generalize dependent (dec_digit_value c). intros d R.
  each_digit d R; cbn; tauto.
Qed.

Ltac each_digit_char c H :=
  let K := fresh in
  pose proof (dec_digit_cases c H) as K;
  repeat (destruct K as [K|K]; [subst c|]); [..|subst c].

(** A string of digits is read by the standard library as a decimal
    number with the same digits, which denotes the same value. *)
Lemma digits_as_uint (ds : bytes) :
  forallb is_dec_digit ds = true ->
  exists u,
    NilEmpty.uint_of_string (string_of_list_ascii ds) = Some u /\
    (forall acc, Z.pos (Pos.of_uint_acc u acc) = fold_left dec_step ds (Z.pos acc)) /\
    Z.of_N (Pos.of_uint u) = dec_value ds /\
    (ds = [] -> u = Decimal.Nil) /\
    (hd "0"%char ds <> "0"%char -> Decimal.nzhead u = u /\ u <> Decimal.Nil).
Proof.
  induction ds as [|c r IH]; intros H.
  - exists Decimal.Nil. cbn. repeat split; trivial; intros K; now elim K.
  - cbn [forallb] in H. apply andb_true_iff in H. destruct H as [Hc Hr].
    destruct (IH Hr) as (u & Hu & Hacc & Hval & _ & _).
    unfold dec_value. fold dec_step.
    cbn [string_of_list_ascii NilEmpty.uint_of_string fold_left hd].
    rewrite Hu.
    each_digit_char c Hc;
      (eexists; split; [reflexivity|]; split; [|split; [|split]];
       [ intros acc; cbn [Pos.of_uint_acc]; rewrite Hacc; f_equal;
         unfold dec_step;
         match goal with
         | |- context [dec_digit_value ?c] =>
             let v := eval vm_compute in (dec_digit_value c) in
             change (dec_digit_value c) with v
         end; lia
       | cbn [Pos.of_uint]; try exact Hval;
         cbn [Z.of_N]; rewrite Hacc; reflexivity
       | discriminate
       | intros K; first [ now elim K | split; [reflexivity | discriminate] ] ]).
Qed.

(** The conversion of printf on a 64-bit value: a minus sign for a
    negative value, then the digits of its magnitude. *)
Lemma fmt_signed_shape (x : Z) :
  int64_range x ->
  exists ds,
    fmt_signed x = (if x <? 0 then ["-"%char] else []) ++ ds /\
    digits_of (Z.abs x) ds.
Proof.
  unfold int64_range, INT64_MIN, INT64_MAX. intros Hx.
  change (2 ^ 63) with 9223372036854775808 in Hx.
  unfold fmt_signed. cbv zeta.
  assert (2 ^ 64 = 18446744073709551616) as P64 by reflexivity.
  destruct (Z.ltb_spec x 0) as [Hneg|Hpos].
  - exists (itoa_word ((0 - x) mod 2 ^ 64)). split; [reflexivity|].
    rewrite Z.mod_small by lia.
    replace (Z.abs x) with (0 - x) by lia.
    apply itoa_word_digits. lia.
  - exists (itoa_word (x mod 2 ^ 64)). split; [reflexivity|].
    rewrite Z.mod_small by lia.
    replace (Z.abs x) with x by lia.
    apply itoa_word_digits. lia.
Qed.

Lemma digits_of_uint (v : Z) (ds : bytes) :
  digits_of v ds -> v <> 0 ->
  exists u,
    NilEmpty.string_of_uint u = string_of_list_ascii ds /\
    Z.of_uint u = v /\ Decimal.nzhead u = u /\ u <> Decimal.Nil.
Proof.
  intros (Hall & Hne & Hhd & _ & Hval) Hnz.
  destruct (digits_as_uint ds Hall) as (u & Hu & _ & Hv & _ & Hn).
  destruct (Hn (Hhd Hnz)) as [Hnorm HuN].
  exists u. split; [|split; [|split]].
  - now apply NilEmpty.sus.
  - unfold Z.of_uint. now rewrite Hv.
  - exact Hnorm.
  - exact HuN.
Qed.

(** printf's conversion writes the base-10 rendering of its argument. *)
Lemma fmt_signed_decimal (x : Z) :
  int64_range x -> fmt_signed x = decimal x.
Proof.
  intros Hx. destruct (fmt_signed_shape x Hx) as (ds & Hfmt & Hds).
  rewrite Hfmt. unfold decimal.
  destruct (Z.eq_dec x 0) as [->|Hnz].
  - destruct Hds as (_ & _ & _ & Hz & _). now rewrite Hz.
  - destruct (digits_of_uint (Z.abs x) ds Hds) as (u & Hstr & Hval & Hnorm & HuN);
      [lia|].
    assert (list_ascii_of_string (NilZero.string_of_uint u) = ds) as Hback.
    { replace (NilZero.string_of_uint u) with (NilEmpty.string_of_uint u)
        by (destruct u; [contradiction|..]; reflexivity).
      rewrite Hstr. apply list_ascii_of_string_of_list_ascii. }
    destruct (Z.ltb_spec x 0) as [Hneg|Hpos].
    + assert (x = Z.of_int (Decimal.Neg u)) as Hx' by (cbn; lia).
      rewrite Hx', DecimalZ.to_of. cbn [Decimal.norm].
      rewrite Hnorm. destruct u; [contradiction|..]; cbn [NilZero.string_of_int];
        cbn [list_ascii_of_string app]; now rewrite Hback.
    + assert (x = Z.of_int (Decimal.Pos u)) as Hx' by (cbn; lia).
      rewrite Hx', DecimalZ.to_of. cbn [Decimal.norm]. unfold Decimal.unorm.
      rewrite Hnorm. destruct u; [contradiction|..];
        cbn [NilZero.string_of_int app]; symmetry; exact Hback.
Qed.

Lemma dec_digit_not_sign (c : ascii) :
  is_dec_digit c = true ->
  Ascii.eqb c "-" = false /\ Ascii.eqb c "+" = false /\ isspace c = false.
Proof. intros H. each_digit_char c H; repeat split. Qed.

Lemma digits_of_all (v : Z) (ds : bytes) :
  digits_of v ds -> all_dec_digits ds = true.
Proof.
  intros (Hall & Hne & _). destruct ds; [contradiction|]. exact Hall.
Qed.

Lemma fmt_signed_canonical (x : Z) :
  int64_range x -> canonical_decimal (fmt_signed x) = true.
Proof.
  intros Hx. destruct (fmt_signed_shape x Hx) as (ds & Hfmt & Hds).
  rewrite Hfmt. pose proof (digits_of_canonical _ _ Hds) as Hcan.
  destruct Hds as (Hall & Hne & _ & _ & Hval).
  destruct (Z.ltb_spec x 0) as [Hneg|Hpos]; cbn [app canonical_decimal].
  - cbn [Ascii.eqb Bool.eqb]. rewrite Hcan, Hval.
    destruct (Z.eqb_spec (Z.abs x) 0); [lia | reflexivity].
  - destruct ds as [|c r]; [contradiction|].
    cbn [forallb] in Hall. apply andb_true_iff in Hall. destruct Hall as [Hc _].
    cbn [app canonical_decimal].
    destruct (dec_digit_not_sign c Hc) as (-> & _). exact Hcan.
Qed.

(** The rendering parses back, in base ten, to the value printed. *)
Lemma fmt_signed_parse (x : Z) :
  int64_range x -> parse_decimal (fmt_signed x) = Some x.
Proof.
  intros Hx. destruct (fmt_signed_shape x Hx) as (ds & Hfmt & Hds).
  rewrite Hfmt. pose proof (digits_of_all _ _ Hds) as Hall.
  destruct Hds as (Hd & Hne & _ & _ & Hval).
  destruct (Z.ltb_spec x 0) as [Hneg|Hpos]; cbn [app parse_decimal].
  - cbn [Ascii.eqb Bool.eqb]. rewrite Hall, Hval. f_equal. lia.
  - destruct ds as [|c r]; [contradiction|].
    cbn [forallb] in Hd. apply andb_true_iff in Hd. destruct Hd as [Hc _].
    cbn [app parse_decimal].
    destruct (dec_digit_not_sign c Hc) as (-> & -> & _).
    rewrite Hall, Hval. f_equal. lia.
Qed.

(** The reader of the standard library accepts the rendering and returns
    the decimal number of the value. *)
Lemma decimal_int_of_string (x : Z) :
  NilZero.int_of_string (string_of_list_ascii (decimal x)) = Some (Z.to_int x).
Proof.
  unfold decimal. rewrite string_of_list_ascii_of_string.
  apply NilZero.isi; destruct x; cbn; try discriminate;
    intros [= E]; now apply (DecimalPos.Unsigned.to_uint_nonnil p).
Qed.

Lemma int64_range_iff (z : Z) : int64_range z <-> int64_rangeb z = true.
Proof.
  unfold int64_range, int64_rangeb. rewrite andb_true_iff, !Z.leb_le. tauto.
Qed.

(* --------------------------------------------------------------------- *)
(** ** tiny_print                                                         *)
(* --------------------------------------------------------------------- *)

(** C1.  For every signed 64-bit integer [x] and every state of the
    console, [tiny_print x] submits to standard output exactly the bytes
    [Output: ], the base-10 rendering of [x] and one newline, as a single
    write and with nothing else: the rendering has a minus sign exactly
    when [x] is negative, no leading zero, no padding and no white space;
    standard input is left untouched. *)
Theorem tiny_print_output (x : Z) (w : world) :
  int64_range x ->
  stdout_all (execState (tiny_print x) w)
    = stdout_all w ++ lit "Output: " ++ decimal x ++ [nl] /\
  canonical_decimal (decimal x) = true /\
  trace (execState (tiny_print x) w)
    = trace w ++ [EvWrite (lit "Output: " ++ decimal x ++ [nl])] /\
  stdin_rest (execState (tiny_print x) w) = stdin_rest w.
Proof.
  intros Hx. unfold execState. rewrite run_tiny_print. cbn [snd].
  rewrite stream_write_all, stream_write_trace, stream_write_stdin.
  rewrite <- (fmt_signed_decimal x Hx).
  repeat split. now apply fmt_signed_canonical.
Qed.

Lemma tiny_print_output_witness :
  int64_range (-305) /\
  stdout_all (execState (tiny_print (-305)) (console IOLBF (lit "7")))
    = lit "Output: -305" ++ [nl].
Proof.
  assert (int64_range (-305)) as H by (split; discriminate).
  split; [exact H|].
  exact (proj1 (tiny_print_output (-305) (console IOLBF (lit "7")) H)).
Defined.

(** C5.  At the two ends of the signed 64-bit range, [tiny_print] emits
    the full literal of the value: nothing overflows when the magnitude
    of the least value is taken, and no digit is dropped. *)
Theorem tiny_print_extremes (w : world) :
  stdout_all (execState (tiny_print 9223372036854775807) w)
    = stdout_all w ++ lit "Output: 9223372036854775807" ++ [nl] /\
  stdout_all (execState (tiny_print (-9223372036854775808)) w)
    = stdout_all w ++ lit "Output: -9223372036854775808" ++ [nl] /\
  INT64_MAX = 9223372036854775807 /\ INT64_MIN = -9223372036854775808.
Proof.
  unfold execState. rewrite !run_tiny_print. cbn [snd].
  rewrite !stream_write_all.
  repeat split.
Qed.

(** C6.  For every signed 64-bit integer [v], the decimal value that
    [tiny_print v] emits between the label and the newline parses back to
    [v] under base-10 parsing, both with the reference parser and with
    the reader of decimal numbers of the standard library. *)
Theorem tiny_print_round_trip (v : Z) (w : world) :
  int64_range v ->
  exists dec : bytes,
    stdout_all (execState (tiny_print v) w)
      = stdout_all w ++ lit "Output: " ++ dec ++ [nl] /\
    parse_decimal dec = Some v /\
    option_map Z.of_int (NilZero.int_of_string (string_of_list_ascii dec)) = Some v.
Proof.
  intros Hv. exists (fmt_signed v).
  unfold execState. rewrite run_tiny_print. cbn [snd].
  rewrite stream_write_all. split; [reflexivity|].
  split; [now apply fmt_signed_parse|].
  rewrite (fmt_signed_decimal v Hv), decimal_int_of_string.
  cbn [option_map]. now rewrite DecimalZ.of_to.
Qed.

Lemma tiny_print_round_trip_witness :
  int64_range (-9223372036854775808) /\
  exists dec : bytes,
    stdout_all (execState (tiny_print (-9223372036854775808)) (console IOFBF []))
      = stdout_all (console IOFBF []) ++ lit "Output: " ++ dec ++ [nl] /\
    parse_decimal dec = Some (-9223372036854775808) /\
    option_map Z.of_int (NilZero.int_of_string (string_of_list_ascii dec))
      = Some (-9223372036854775808).
Proof.
  assert (int64_range (-9223372036854775808)) as H by (split; discriminate).
  split; [exact H|].
  exact (tiny_print_round_trip (-9223372036854775808) (console IOFBF []) H).
Defined.

(* --------------------------------------------------------------------- *)
(** ** scanf on one integer conversion                                    *)
(* --------------------------------------------------------------------- *)

Lemma scan_one_int (inp : bytes) :
  scan_directives [DInt ConvI] inp []
  = match read_outcome inp with
    | (ScanValue z, r) => (1, [z], r)
    | (ScanMismatch, r) => (0, [], r)
    | (ScanEOF, r) => (EOF, [], r)
    end.
Proof.
  unfold read_outcome. cbn [scan_directives conv_base].
  destruct (scan_int 0 (skip_space inp)) as [[| |z] r]; reflexivity.
Qed.

Lemma run_before_read (w : world) :
  before_read w
  = mkWorld (stdin_rest w) (stdout_mode w) [] (stdout_all w ++ lit "Input: ")
            (trace w ++ [EvWrite (lit "Input: "); EvFlush]).
Proof.
  unfold before_read, execState.
  change (runState (printf (lit "Input: ") [] ;; fflush_stdout) w)
    with (runState fflush_stdout (snd (runState (printf (lit "Input: ") []) w))).
  rewrite run_printf, run_fflush. cbn [snd].
  change (format_output (parse_format FText (lit "Input: ")) []) with (lit "Input: ").
  rewrite stream_write_all, stream_write_stdin, stream_write_trace, stream_write_mode.
  now rewrite <- app_assoc.
Qed.

Lemma run_scanf_int (w : world) :
  runState (scanf (lit "%" ++ lit PRIi64)) w
  = let inp := stdin_rest w in
    let o := read_outcome inp in
    ((read_status (fst o),
      match fst o with ScanValue z => [z] | _ => [] end),
     mkWorld (snd o) (stdout_mode w) (stdout_buf w) (stdout_dev w)
             (trace w ++ [EvScan (firstn (List.length inp - List.length (snd o)) inp)])).
Proof.
  unfold scanf. rewrite tiny_input_format.
  cbn [runState bind get put ret Monad_state MonadState_state].
  rewrite scan_one_int. cbv zeta.
  destruct (read_outcome (stdin_rest w)) as [[| |z] r]; reflexivity.
Qed.

(** The read of [tiny_input] is the [scanf] call in the world left by the
    prompt and the flush. *)
Lemma run_tiny_input_read (w : world) :
  runState tiny_input_read w
  = runState (scanf (lit "%" ++ lit PRIi64)) (before_read w).
Proof. reflexivity. Qed.

(** [tiny_input] returns its local variable after that read. *)
Lemma run_tiny_input_split (w : world) :
  runState tiny_input w
  = (stored_through Vundef (snd (fst (runState tiny_input_read w))),
     snd (runState tiny_input_read w)).
Proof.
  rewrite run_tiny_input_read.
  change (runState tiny_input w)
    with (let (r, s) := runState (scanf (lit "%" ++ lit PRIi64)) (before_read w) in
          (stored_through Vundef (snd r), s)).
  rewrite run_scanf_int. reflexivity.
Qed.

Lemma run_read (w : world) :
  runState tiny_input_read w
  = let inp := stdin_rest w in
    let o := read_outcome inp in
    ((read_status (fst o),
      match fst o with ScanValue z => [z] | _ => [] end),
     mkWorld (snd o) (stdout_mode w) [] (stdout_all w ++ lit "Input: ")
             (trace w ++ [EvWrite (lit "Input: "); EvFlush;
                          EvScan (firstn (List.length inp - List.length (snd o)) inp)])).
Proof.
  rewrite run_tiny_input_read, run_scanf_int, run_before_read.
  cbn [stdin_rest stdout_mode stdout_buf stdout_dev trace]. cbv zeta.
  now rewrite <- app_assoc.
Qed.

Lemma run_tiny_input (w : world) :
  runState tiny_input w
  = let inp := stdin_rest w in
    let o := read_outcome inp in
    (read_result (fst o),
     mkWorld (snd o) (stdout_mode w) [] (stdout_all w ++ lit "Input: ")
             (trace w ++ [EvWrite (lit "Input: "); EvFlush;
                          EvScan (firstn (List.length inp - List.length (snd o)) inp)])).
Proof.
  rewrite run_tiny_input_split, run_read. cbv zeta. cbn [fst snd].
  destruct (read_outcome (stdin_rest w)) as [[| |z] r]; reflexivity.
Qed.

(* --------------------------------------------------------------------- *)
(** ** The numeric conversion against base-10 reading                     *)
(* --------------------------------------------------------------------- *)

Ltac each_char c := destruct c as [[|] [|] [|] [|] [|] [|] [|] [|]].

Lemma is_digit_in_10 (c : ascii) : is_digit_in 10 c = is_dec_digit c.
Proof. each_char c; reflexivity. Qed.

Lemma oct_digit_is_dec (c : ascii) :
  is_digit_in 8 c = true -> is_dec_digit c = true.
Proof. each_char c; intros H; try reflexivity; discriminate H. Qed.

Lemma x_not_dec_digit (c : ascii) : is_x c = true -> is_dec_digit c = false.
Proof. each_char c; intros H; try reflexivity; discriminate H. Qed.

Lemma dec_digit_value_digit (c : ascii) :
  is_dec_digit c = true -> digit_value c = Some (dec_digit_value c).
Proof. intros H. each_digit_char c H; reflexivity. Qed.

Lemma take_dec_digits_all (s : bytes) :
  forallb is_dec_digit (take_dec_digits s) = true.
Proof.
  induction s as [|c r IH]; [reflexivity|].
  cbn [take_dec_digits]. destruct (is_dec_digit c) eqn:E; [|reflexivity].
  cbn [forallb]. now rewrite E, IH.
Qed.

(** In base ten the conversion reads the longest run of decimal digits. *)
Lemma read_digits_10 (s : bytes) :
  read_digits 10 s
  = (take_dec_digits s, skipn (List.length (take_dec_digits s)) s).
Proof.
  induction s as [|c r IH]; [reflexivity|].
  cbn [read_digits take_dec_digits]. rewrite is_digit_in_10.
  destruct (is_dec_digit c); [|reflexivity].
  now rewrite IH.
Qed.

Lemma digits_to_Z_10 (ds : bytes) :
  forallb is_dec_digit ds = true -> digits_to_Z 10 ds = dec_value ds.
Proof.
  unfold digits_to_Z, dec_value. generalize 0 as acc.
  induction ds as [|c r IH]; intros acc H; [reflexivity|].
  cbn [forallb] in H. apply andb_true_iff in H. destruct H as [Hc Hr].
  cbn [fold_left]. rewrite (dec_digit_value_digit c Hc), (IH _ Hr).
  f_equal. lia.
Qed.

(** A number that does not start with 0 is scanned in base ten. *)
Lemma scan_unsigned_no_zero (s : bytes) :
  hd "1"%char s <> "0"%char ->
  scan_unsigned 0 s
  = (match take_dec_digits s with
     | [] => None
     | ds => Some (dec_value ds)
     end,
     skipn (List.length (take_dec_digits s)) s).
Proof.
  intros Hhd. unfold scan_unsigned.
  assert (scan_prefix 0 s = (0, false, s)) as ->.
  { destruct s as [|c r]; [reflexivity|]. cbn [scan_prefix]. cbn [hd] in Hhd.
    destruct (Ascii.eqb_spec c "0"); [contradiction | reflexivity]. }
  cbn [Z.eqb]. rewrite read_digits_10.
  pose proof (take_dec_digits_all s) as Hall.
  destruct (take_dec_digits s) as [|d ds]; [reflexivity|].
  now rewrite digits_to_Z_10.
Qed.

(** A number that starts with 0 is always scanned with success. *)
Lemma scan_unsigned_zero (r : bytes) :
  exists m rest, scan_unsigned 0 ("0"%char :: r) = (Some m, rest).
Proof.
  unfold scan_unsigned.
  destruct (scan_prefix 0 ("0"%char :: r)) as [[base lead0] s2] eqn:E.
  assert (lead0 = true) as ->.
  { cbn in E. destruct r as [|cx rx]; [now inversion E|].
    destruct (is_x cx); now inversion E. }
  destruct (read_digits (if base =? 0 then 10 else base) s2) as [ds s3].
  destruct ds; eauto.
Qed.

(** A lone 0 that no digit and no x follows is scanned as zero. *)
Lemma scan_unsigned_lone_zero (r : bytes) :
  take_dec_digits r = [] ->
  match r with c :: _ => is_x c | [] => false end = false ->
  scan_unsigned 0 ("0"%char :: r) = (Some 0, r).
Proof.
  intros Hd Hx. unfold scan_unsigned.
  destruct r as [|c r']; [reflexivity|].
  cbn [scan_prefix Ascii.eqb Bool.eqb]. rewrite Hx. cbn [Z.eqb].
  cbn [read_digits]. cbn [take_dec_digits] in Hd.
  destruct (is_digit_in 8 c) eqn:E; [|reflexivity].
  apply oct_digit_is_dec in E. rewrite E in Hd. discriminate Hd.
Qed.

Lemma clamp64_range (z : Z) : int64_range (clamp64 z).
Proof.
  unfold clamp64, int64_range.
  assert (INT64_MIN <= INT64_MAX) by discriminate.
  destruct (Z.ltb_spec z INT64_MIN); [lia|].
  destruct (Z.ltb_spec INT64_MAX z); lia.
Qed.

Lemma clamp64_id (z : Z) : int64_range z -> clamp64 z = z.
Proof.
  unfold clamp64, int64_range. intros [H1 H2].
  destruct (Z.ltb_spec z INT64_MIN); [lia|].
  destruct (Z.ltb_spec INT64_MAX z); [lia|reflexivity].
Qed.

Lemma read_outcome_eq (inp : bytes) :
  read_outcome inp
  = match skip_space inp with
    | [] => (ScanEOF, [])
    | c :: r =>
        match scan_unsigned 0 (after_sign c r) with
        | (None, s3) => (ScanMismatch, s3)
        | (Some m, s3) => (ScanValue (clamp64 (signed c m)), s3)
        end
    end.
Proof. unfold read_outcome. destruct (skip_space inp); reflexivity. Qed.

Lemma decimal_token_eq (inp : bytes) :
  token_digits (decimal_token inp)
  = match skip_space inp with
    | [] => []
    | c :: r => take_dec_digits (after_sign c r)
    end.
Proof.
  unfold decimal_token, after_sign.
  destruct (skip_space inp) as [|c r]; [reflexivity|].
  destruct (is_sign c) eqn:Es.
  - cbn [token_digits]. now rewrite Es.
  - cbn [take_dec_digits]. destruct (is_dec_digit c); [|reflexivity].
    cbn [token_digits]. now rewrite Es.
Qed.

(** Base-10 reading of the next token, computed on the input. *)
Lemma read_decimal_eq (inp : bytes) :
  read_decimal inp
  = match skip_space inp with
    | [] => None
    | c :: r =>
        match take_dec_digits (after_sign c r) with
        | [] => None
        | ds => Some (signed c (dec_value ds))
        end
    end.
Proof.
  unfold read_decimal, decimal_token, after_sign, signed.
  destruct (skip_space inp) as [|c r]; [reflexivity|].
  destruct (is_sign c) eqn:Es.
  - pose proof (take_dec_digits_all r) as Hall.
    unfold is_sign in Es. cbn [parse_decimal].
    destruct (Ascii.eqb c "-") eqn:Em.
    + unfold all_dec_digits. destruct (take_dec_digits r); [reflexivity|].
      now rewrite Hall.
    + cbn [orb] in Es. rewrite Es.
      unfold all_dec_digits. destruct (take_dec_digits r); [reflexivity|].
      now rewrite Hall.
  - pose proof (take_dec_digits_all (c :: r)) as Hall.
    destruct (take_dec_digits (c :: r)) as [|d ds] eqn:Et; [reflexivity|].
    assert (d = c) as ->.
    { cbn [take_dec_digits] in Et. destruct (is_dec_digit c); now inversion Et. }
    unfold is_sign in Es. apply orb_false_iff in Es. destruct Es as [Em Ep].
    cbn [parse_decimal]. rewrite Em, Ep.
    unfold all_dec_digits. now rewrite Hall.
Qed.

(** The conversion finds a number exactly when decimal digits follow. *)
Lemma scan_unsigned_none_iff (s : bytes) :
  fst (scan_unsigned 0 s) = None <-> take_dec_digits s = [].
Proof.
  destruct s as [|c r]; [cbn; tauto|].
  destruct (Ascii.eqb_spec c "0") as [->|Hc].
  - destruct (scan_unsigned_zero r) as (m & rest & ->). cbn. split; discriminate.
  - rewrite scan_unsigned_no_zero by exact Hc.
    destruct (take_dec_digits (c :: r)); cbn; split; trivial; discriminate.
Qed.

(** The read fails exactly when the base-10 reading of the next token
    does. *)
Lemma read_status_decimal (inp : bytes) :
  read_status (fst (read_outcome inp)) <> 1 <-> read_decimal inp = None.
Proof.
  rewrite read_outcome_eq, read_decimal_eq.
  destruct (skip_space inp) as [|c r]; [cbn; split; [trivial | discriminate]|].
  pose proof (scan_unsigned_none_iff (after_sign c r)) as H.
  destruct (scan_unsigned 0 (after_sign c r)) as [[m|] s3]; cbn [fst] in *.
  - destruct (take_dec_digits (after_sign c r)).
    + destruct H as [_ H]. specialize (H eq_refl). discriminate H.
    + cbn. split; [intros K; now elim K | discriminate].
  - destruct H as [H _]. rewrite (H eq_refl). cbn. split; [trivial | discriminate].
Qed.

Lemma take_dec_digits_hd (s : bytes) (d : ascii) (ds : bytes) :
  take_dec_digits s = d :: ds ->
  exists r, s = d :: r /\ take_dec_digits r = ds.
Proof.
  destruct s as [|c r]; [discriminate|]. cbn [take_dec_digits].
  destruct (is_dec_digit c); [|discriminate].
  intros [= -> <-]. eauto.
Qed.

Lemma after_token_eq (inp : bytes) :
  after_token inp
  = match skip_space inp with
    | [] => []
    | c :: r =>
        skipn (List.length (take_dec_digits (after_sign c r))) (after_sign c r)
    end.
Proof.
  unfold after_token, decimal_token, after_sign.
  destruct (skip_space inp) as [|c r]; [reflexivity|].
  destruct (is_sign c); reflexivity.
Qed.

(** A plain token whose value fits is read as its decimal value. *)
Lemma read_outcome_plain (inp : bytes) (v : Z) :
  read_decimal inp = Some v -> plain_token inp = true -> int64_range v ->
  fst (read_outcome inp) = ScanValue v.
Proof.
  unfold plain_token.
  rewrite read_decimal_eq, read_outcome_eq, decimal_token_eq, after_token_eq.
  destruct (skip_space inp) as [|c r]; [discriminate|].
  destruct (take_dec_digits (after_sign c r)) as [|d ds] eqn:Et; [discriminate|].
  intros [= <-] Hplain Hv.
  apply andb_true_iff in Hplain. destruct Hplain as [Hcan Hx].
  destruct (take_dec_digits_hd _ _ _ Et) as (r0 & Hs & Hr0).
  destruct (Ascii.eqb_spec d "0") as [->|Hd].
  - destruct ds as [|d' ds']; [|discriminate Hcan].
    rewrite Hs in *. cbn [List.length skipn] in Hx.
    rewrite scan_unsigned_lone_zero.
    + cbn [fst]. f_equal. rewrite clamp64_id; [|exact Hv].
      unfold signed, dec_value. cbn. reflexivity.
    + exact Hr0.
    + destruct r0 as [|cx rx]; [reflexivity|].
      cbn [Ascii.eqb Bool.eqb andb] in Hx. now apply negb_true_iff in Hx.
  - rewrite scan_unsigned_no_zero by (rewrite Hs; exact Hd).
    rewrite Et. cbn [fst]. f_equal. now apply clamp64_id.
Qed.

(* --------------------------------------------------------------------- *)
(** ** tiny_input                                                         *)
(* --------------------------------------------------------------------- *)

Lemma tiny_input_value (w : world) :
  evalState tiny_input w = read_result (fst (read_outcome (stdin_rest w))).
Proof. unfold evalState. now rewrite run_tiny_input. Qed.

Lemma tiny_input_status (w : world) :
  fst (evalState tiny_input_read w)
  = read_status (fst (read_outcome (stdin_rest w))).
Proof. unfold evalState. now rewrite run_read. Qed.

Lemma tiny_input_world (w : world) :
  execState tiny_input w
  = mkWorld (snd (read_outcome (stdin_rest w))) (stdout_mode w) []
            (stdout_all w ++ lit "Input: ") (trace w ++ input_events w).
Proof. unfold execState. now rewrite run_tiny_input. Qed.

(** C2.  With [42] and a newline pending on standard input, [tiny_input]
    returns 42, and when its read starts the prompt [Input: ] has been
    delivered to the device while the input is still unread; the history
    of the call is the write of the prompt, the flush, then the read of
    [42].  With [-7] and a newline pending it returns -7. *)
Theorem tiny_input_examples (w1 w2 : world) :
  stdin_rest w1 = lit "42" ++ [nl] ->
  stdin_rest w2 = lit "-7" ++ [nl] ->
  evalState tiny_input w1 = Vint 42 /\
  stdout_dev (before_read w1) = stdout_all w1 ++ lit "Input: " /\
  stdin_rest (before_read w1) = lit "42" ++ [nl] /\
  trace (execState tiny_input w1)
    = trace w1 ++ [EvWrite (lit "Input: "); EvFlush; EvScan (lit "42")] /\
  evalState tiny_input w2 = Vint (-7).
Proof.
  intros H1 H2.
  rewrite !tiny_input_value, tiny_input_world, run_before_read.
  unfold input_events. rewrite H1, H2.
  cbn [stdout_dev stdin_rest trace]. repeat split.
Qed.

Lemma tiny_input_examples_witness :
  evalState tiny_input (console IOLBF (lit "42" ++ [nl])) = Vint 42 /\
  evalState tiny_input (console IOFBF (lit "-7" ++ [nl])) = Vint (-7).
Proof.
  pose proof (tiny_input_examples (console IOLBF (lit "42" ++ [nl]))
                (console IOFBF (lit "-7" ++ [nl])) eq_refl eq_refl) as H.
  split; [exact (proj1 H) | exact (proj2 (proj2 (proj2 (proj2 H))))].
Defined.

(** C3, as stated, fails on the input [010]: the token is a valid signed
    decimal integer of value ten, and the call returns eight, because the
    conversion [%i] reads a number that starts with 0 in octal. *)
Lemma read_claim_counterexample :
  read_decimal (lit "010" ++ [nl]) = Some 10 /\
  evalState tiny_input (console IOLBF (lit "010" ++ [nl])) = Vint 8 /\
  ~ read_claim_as_stated (lit "010" ++ [nl]).
Proof.
  split; [reflexivity|]. split; [reflexivity|].
  intros [_ H]. specialize (H 10 eq_refl). discriminate H.
Qed.

(** C3, amended.  The read of [tiny_input] fails exactly when the stream
    is exhausted or the next token is not a valid signed decimal integer.
    On success the call returns a definite value of the signed 64-bit
    range; it is the decimal value of the token whenever that value fits
    in 64 bits and the token is written the plain way (no leading zero,
    and not a 0 followed at once by x or X).  On failure the call returns
    its local variable as it was declared: an indeterminate value, no
    sentinel. *)
Theorem tiny_input_read_result (w : world) :
  (fst (evalState tiny_input_read w) <> 1
   <-> read_decimal (stdin_rest w) = None) /\
  (fst (evalState tiny_input_read w) = 1 ->
   exists z, evalState tiny_input w = Vint z /\ int64_range z) /\
  (fst (evalState tiny_input_read w) <> 1 -> evalState tiny_input w = Vundef) /\
  (forall v,
     read_decimal (stdin_rest w) = Some v ->
     plain_token (stdin_rest w) = true ->
     int64_range v ->
     evalState tiny_input w = Vint v).
Proof.
  rewrite tiny_input_status, tiny_input_value.
  split; [apply read_status_decimal|].
  split; [|split].
  - destruct (fst (read_outcome (stdin_rest w))) as [| |z] eqn:E;
      cbn; try discriminate.
    intros _. exists z. split; [reflexivity|].
    rewrite read_outcome_eq in E.
    destruct (skip_space (stdin_rest w)) as [|c r]; [discriminate|].
    destruct (scan_unsigned 0 (after_sign c r)) as [[m|] s3]; [|discriminate].
    cbn in E. injection E as <-. apply clamp64_range.
  - destruct (fst (read_outcome (stdin_rest w))); cbn; trivial.
    intros K. now elim K.
  - intros v Hv Hp Hr. now rewrite (read_outcome_plain _ v Hv Hp Hr).
Qed.

Lemma tiny_input_read_result_witness :
  evalState tiny_input (console IOLBF (lit " +1234" ++ [nl])) = Vint 1234.
Proof.
  apply (proj2 (proj2 (proj2
           (tiny_input_read_result (console IOLBF (lit " +1234" ++ [nl])))))).
  - reflexivity.
  - reflexivity.
  - split; discriminate.
Defined.

(** C4.  On every call of [tiny_input], in every buffering mode of
    standard output, the prompt [Input: ], which holds no newline, is
    written and standard output is flushed before the read starts: the
    read runs in a world where everything submitted so far, the prompt
    last, has reached the device, nothing is left in the buffer, and the
    input is still untouched; the history of the call is the write, the
    flush and the read, in this order. *)
Theorem tiny_input_prompt_before_read (w : world) :
  runState tiny_input_read w
    = runState (scanf (lit "%" ++ lit PRIi64)) (before_read w) /\
  stdout_dev (before_read w) = stdout_dev w ++ stdout_buf w ++ lit "Input: " /\
  stdout_buf (before_read w) = [] /\
  stdin_rest (before_read w) = stdin_rest w /\
  trace (before_read w) = trace w ++ [EvWrite (lit "Input: "); EvFlush] /\
  (exists consumed,
     trace (execState tiny_input w)
     = trace w ++ [EvWrite (lit "Input: "); EvFlush; EvScan consumed]) /\
  existsb is_nl (lit "Input: ") = false.
Proof.
  split; [apply run_tiny_input_read|].
  rewrite tiny_input_world, run_before_read. unfold stdout_all, input_events.
  cbn [stdout_dev stdout_buf stdin_rest trace].
  rewrite <- app_assoc.
  repeat split. eexists. reflexivity.
Qed.

(** C7.  One call of [tiny_input] performs exactly one read on the input
    stream, whether that read succeeds or fails, and writes the prompt
    exactly once; it writes nothing else. *)
Theorem tiny_input_single_read (w : world) :
  exists new,
    trace (execState tiny_input w) = trace w ++ new /\
    count_events is_scan new = 1%nat /\
    count_events (is_write_of (lit "Input: ")) new = 1%nat /\
    count_events is_write new = 1%nat /\
    count_events is_flush new = 1%nat.
Proof.
  exists (input_events w). rewrite tiny_input_world.
  cbn [trace]. repeat split.
Qed.

Lemma tiny_input_from_undef : tiny_input_from Vundef = tiny_input.
Proof. reflexivity. Qed.

Lemma run_tiny_input_from (x0 : val) (w : world) :
  runState (tiny_input_from x0) w
  = let inp := stdin_rest w in
    let o := read_outcome inp in
    (match fst o with ScanValue z => Vint z | _ => x0 end,
     mkWorld (snd o) (stdout_mode w) [] (stdout_all w ++ lit "Input: ")
             (trace w ++ input_events w)).
Proof.
  change (runState (tiny_input_from x0) w)
    with (let (r, s) := runState (scanf (lit "%" ++ lit PRIi64)) (before_read w) in
          (stored_through x0 (snd r), s)).
  rewrite run_scanf_int, run_before_read.
  cbn [stdin_rest stdout_mode stdout_buf stdout_dev trace]. cbv zeta.
  unfold input_events. rewrite <- app_assoc.
  destruct (read_outcome (stdin_rest w)) as [[| |z] r]; reflexivity.
Qed.

(** C8, as stated, fails on a read that fails: on the same pending input
    [abc] the call returns what its local held at its declaration, 1 in
    one run and 2 in another, so the value returned is not a function of
    the input stream. *)
Lemma stateless_claim_counterexample :
  evalState (tiny_input_from (Vint 1)) (console IOLBF (lit "abc" ++ [nl])) = Vint 1 /\
  evalState (tiny_input_from (Vint 2)) (console IOLBF (lit "abc" ++ [nl])) = Vint 2 /\
  ~ input_depends_on_stream_only.
Proof.
  split; [reflexivity|]. split; [reflexivity|].
  intros H.
  specialize (H (Vint 1) (Vint 2) (console IOLBF (lit "abc" ++ [nl]))
                (console IOLBF (lit "abc" ++ [nl])) eq_refl).
  discriminate H.
Qed.

(** C8, amended.  The runtime keeps no state of its own.  What
    [tiny_print] emits is a function of its argument alone, the same in
    every world, so two calls with the same argument emit the same bytes,
    and it leaves the input untouched.  For [tiny_input], in any two
    worlds with the same pending input and whatever its local held:
    whether the read succeeds, the input left unread and the bytes
    emitted are the same, and when the read succeeds so is the value
    returned.  When the read fails each call returns what its local held,
    which the input does not determine. *)
Theorem runtime_stateless :
  (forall x : Z, exists out : bytes, forall w : world,
      stdout_all (execState (tiny_print x) w) = stdout_all w ++ out /\
      stdout_all (execState (tiny_print x ;; tiny_print x) w)
        = stdout_all w ++ out ++ out /\
      stdin_rest (execState (tiny_print x) w) = stdin_rest w) /\
  (forall (x1 x2 : val) (w1 w2 : world),
      stdin_rest w1 = stdin_rest w2 ->
      fst (evalState tiny_input_read w1) = fst (evalState tiny_input_read w2) /\
      stdin_rest (execState (tiny_input_from x1) w1)
        = stdin_rest (execState (tiny_input_from x2) w2) /\
      stdout_all (execState (tiny_input_from x1) w1) = stdout_all w1 ++ lit "Input: " /\
      stdout_all (execState (tiny_input_from x2) w2) = stdout_all w2 ++ lit "Input: " /\
      (fst (evalState tiny_input_read w1) = 1 ->
       exists z, evalState (tiny_input_from x1) w1 = Vint z /\
                 evalState (tiny_input_from x2) w2 = Vint z) /\
      (fst (evalState tiny_input_read w1) <> 1 ->
       evalState (tiny_input_from x1) w1 = x1 /\
       evalState (tiny_input_from x2) w2 = x2)).
Proof.
  split.
  - intros x. exists (lit "Output: " ++ fmt_signed x ++ [nl]). intros w.
    change (execState (tiny_print x ;; tiny_print x) w)
      with (execState (tiny_print x) (execState (tiny_print x) w)).
    unfold execState. rewrite !run_tiny_print. cbn [snd].
    rewrite !stream_write_all, stream_write_stdin.
    repeat split. now rewrite <- app_assoc.
  - intros x1 x2 w1 w2 H.
    rewrite !tiny_input_status. unfold evalState, execState.
    rewrite !run_tiny_input_from. cbv zeta. cbn [fst snd stdin_rest].
    rewrite H.
    split; [reflexivity|]. split; [reflexivity|].
    split; [unfold stdout_all at 1; cbn [stdout_dev stdout_buf];
            now rewrite app_nil_r|].
    split; [unfold stdout_all at 1; cbn [stdout_dev stdout_buf];
            now rewrite app_nil_r|].
    destruct (fst (read_outcome (stdin_rest w2))) as [| |z]; cbn [read_status].
    + split; [discriminate | now split].
    + split; [discriminate | now split].
    + split; [intros _; now exists z | intros K; now elim K].
Qed.

Lemma runtime_stateless_witness :
  (exists z,
     evalState (tiny_input_from (Vint 1)) (console IOFBF (lit "5 6")) = Vint z /\
     evalState (tiny_input_from (Vint 2))
       (mkWorld (lit "5 6") IONBF (lit "pending") (lit "shown") [EvFlush]) = Vint z) /\
  evalState (tiny_input_from (Vint 1)) (console IOFBF (lit "x")) = Vint 1.
Proof.
  split.
  - apply (proj2 runtime_stateless (Vint 1) (Vint 2) (console IOFBF (lit "5 6"))
             (mkWorld (lit "5 6") IONBF (lit "pending") (lit "shown") [EvFlush])
             eq_refl).
    reflexivity.
  - apply (proj2 runtime_stateless (Vint 1) (Vint 1) (console IOFBF (lit "x"))
             (console IOFBF (lit "x")) eq_refl).
    discriminate.
Defined.

(** C9.  When the input stream is at its end (empty or closed), also
    after white space only, [tiny_input] still returns: the [scanf] call
    yields [EOF], which the function discards, and the value returned is
    the local variable that no store has written, an indeterminate value;
    no failure is signalled to the caller, and the prompt was written all
    the same. *)
Theorem tiny_input_end_of_stream (w : world) :
  skip_space (stdin_rest w) = [] ->
  runState tiny_input w
    = (Vundef,
       mkWorld [] (stdout_mode w) [] (stdout_all w ++ lit "Input: ")
               (trace w ++ [EvWrite (lit "Input: "); EvFlush;
                            EvScan (stdin_rest w)])) /\
  fst (evalState tiny_input_read w) = EOF.
Proof.
  intros H. rewrite tiny_input_status, run_tiny_input. cbv zeta.
  unfold read_outcome. rewrite H. cbn [scan_int fst snd read_result read_status].
  split; [|reflexivity].
  cbn [List.length]. rewrite Nat.sub_0_r, firstn_all. reflexivity.
Qed.

Lemma tiny_input_end_of_stream_witness :
  evalState tiny_input (console IOLBF []) = Vundef /\
  stdin_rest (execState tiny_input (console IOLBF [])) = [].
Proof.
  pose proof (tiny_input_end_of_stream (console IOLBF []) eq_refl) as [H _].
  unfold evalState, execState. rewrite H. split; reflexivity.
Defined.

Lemma skip_space_app (ws t : bytes) :
  forallb isspace ws = true -> skip_space (ws ++ t) = skip_space t.
Proof.
  induction ws as [|c r IH]; intros H; [reflexivity|].
  cbn [forallb] in H. apply andb_true_iff in H. destruct H as [Hc Hr].
  cbn [app skip_space]. rewrite Hc. now apply IH.
Qed.

(* --------------------------------------------------------------------- *)
(** ** The two functions together                                         *)
(* --------------------------------------------------------------------- *)

Lemma take_dec_digits_app (ds t : bytes) :
  forallb is_dec_digit ds = true ->
  take_dec_digits t = [] ->
  take_dec_digits (ds ++ t) = ds.
Proof.
  induction ds as [|c r IH]; intros H Ht; [exact Ht|].
  cbn [forallb] in H. apply andb_true_iff in H. destruct H as [Hc Hr].
  cbn [app take_dec_digits]. rewrite Hc. now rewrite IH.
Qed.

Lemma skipn_length_app (a b : bytes) : skipn (List.length a) (a ++ b) = b.
Proof. induction a as [|c r IH]; [reflexivity | exact IH]. Qed.

(** A line printed by [tiny_print] holds, after the label, a token that
    the reader takes whole. *)
Lemma decimal_token_printed (x : Z) (rest : bytes) :
  int64_range x ->
  decimal_token (fmt_signed x ++ nl :: rest) = fmt_signed x /\
  after_token (fmt_signed x ++ nl :: rest) = nl :: rest /\
  token_digits (fmt_signed x) = itoa_word (Z.abs x).
Proof.
  intros Hx. destruct (fmt_signed_shape x Hx) as (ds & Hfmt & Hds).
  assert (itoa_word (Z.abs x) = ds) as Hw.
  { unfold fmt_signed in Hfmt. cbv zeta in Hfmt.
    unfold int64_range, INT64_MIN, INT64_MAX in Hx.
    change (2 ^ 63) with 9223372036854775808 in Hx.
    assert (2 ^ 64 = 18446744073709551616) as P64 by reflexivity.
    destruct (Z.ltb_spec x 0).
    - rewrite Z.mod_small in Hfmt by lia. injection Hfmt as <-. f_equal. lia.
    - rewrite Z.mod_small in Hfmt by lia. cbn [app] in Hfmt. rewrite <- Hfmt.
      f_equal. lia. }
  rewrite Hw, Hfmt. destruct Hds as (Hall & Hne & _).
  assert (take_dec_digits (ds ++ nl :: rest) = ds) as Htake
    by (now apply take_dec_digits_app).
  unfold after_token, decimal_token.
  destruct (Z.ltb_spec x 0) as [Hneg|Hpos]; cbn [app].
  - cbn [skip_space]. change (isspace "-") with false.
    change (is_sign "-") with true. cbv iota. rewrite Htake.
    cbn [token_digits]. change (is_sign "-") with true. cbv iota.
    change ("-"%char :: ds ++ nl :: rest) with (("-"%char :: ds) ++ nl :: rest).
    rewrite skipn_length_app. repeat split.
  - destruct ds as [|c r]; [contradiction|].
    pose proof Hall as Hall'.
    cbn [forallb] in Hall. apply andb_true_iff in Hall. destruct Hall as [Hc _].
    destruct (dec_digit_not_sign c Hc) as (Hm & Hp & Hs).
    assert (is_sign c = false) as Hsign by (unfold is_sign; now rewrite Hm, Hp).
    cbn [app skip_space]. rewrite Hs, Hsign.
    change (c :: r ++ nl :: rest) with ((c :: r) ++ nl :: rest).
    rewrite Htake. cbn [token_digits]. rewrite Hsign.
    rewrite skipn_length_app. repeat split.
Qed.

(** Reading back what was printed: when the decimal value that
    [tiny_print x] emitted, with its newline, is the pending input,
    [tiny_input] returns [x]. *)
Corollary tiny_input_reads_tiny_print (x : Z) (w : world) (rest : bytes) :
  int64_range x ->
  evalState tiny_input (with_stdin w (fmt_signed x ++ nl :: rest)) = Vint x.
Proof.
  intros Hx.
  destruct (decimal_token_printed x rest Hx) as (Htok & Hafter & Hdig).
  rewrite tiny_input_value. cbn [stdin_rest with_stdin].
  rewrite (read_outcome_plain _ x); [reflexivity|..].
  - unfold read_decimal. rewrite Htok. now apply fmt_signed_parse.
  - unfold plain_token. rewrite Htok, Hafter, Hdig.
    assert (0 <= Z.abs x < 2 ^ 64) as Hr.
    { unfold int64_range, INT64_MIN, INT64_MAX in Hx.
      change (2 ^ 63) with 9223372036854775808 in Hx.
      change (2 ^ 64) with 18446744073709551616. lia. }
    rewrite (digits_of_canonical _ _ (itoa_word_digits _ Hr)).
    destruct (itoa_word (Z.abs x)) as [|d [|d' ds']]; try reflexivity.
    change (is_x nl) with false. now rewrite andb_false_r.
  - exact Hx.
Qed.

(** The prefixes of the conversion [%i] on concrete inputs. *)
Example tiny_input_hexadecimal :
  evalState tiny_input (console IOLBF (lit "0x1F" ++ [nl])) = Vint 31.
Proof. reflexivity. Qed.

Example tiny_input_zero :
  evalState tiny_input (console IOLBF (lit "0" ++ [nl])) = Vint 0.
Proof. reflexivity. Qed.

Example tiny_input_stops_at_letter :
  runState tiny_input (console IOFBF (lit "12abc"))
  = (Vint 12,
     mkWorld (lit "abc") IOFBF [] (lit "Input: ")
             [EvWrite (lit "Input: "); EvFlush; EvScan (lit "12")]).
Proof. reflexivity. Qed.

Example tiny_input_not_a_number :
  evalState tiny_input (console IOLBF (lit "abc" ++ [nl])) = Vundef /\
  fst (evalState tiny_input_read (console IOLBF (lit "abc" ++ [nl]))) = 0.
Proof. split; reflexivity. Qed.

Example tiny_input_saturates :
  evalState tiny_input (console IOLBF (lit "99999999999999999999" ++ [nl]))
  = Vint INT64_MAX.
Proof. reflexivity. Qed.

(* ===================================================================== *)
(** * Further properties of the runtime                                   *)
(* ===================================================================== *)

(* --------------------------------------------------------------------- *)
(** ** What a read consumes                                               *)
(* --------------------------------------------------------------------- *)

Lemma skip_space_split (inp : bytes) :
  exists ws, inp = ws ++ skip_space inp /\ forallb isspace ws = true.
Proof.
  induction inp as [|c r (ws & IH & Hws)]; [now exists []|].
  cbn [skip_space]. destruct (isspace c) eqn:E.
  - exists (c :: ws). cbn [app forallb]. rewrite E, Hws. split; [now f_equal|reflexivity].
  - now exists [].
Qed.

Lemma read_digits_split (base : Z) (s : bytes) :
  s = fst (read_digits base s) ++ snd (read_digits base s).
Proof.
  induction s as [|c r IH]; [reflexivity|].
  cbn [read_digits]. destruct (is_digit_in base c); [|reflexivity].
  destruct (read_digits base r) as [ds rest]. cbn in *. now f_equal.
Qed.

Lemma scan_prefix_split (base0 : Z) (s : bytes) :
  exists pre, s = pre ++ snd (scan_prefix base0 s).
Proof.
  destruct s as [|c0 r0]; [now exists []|]. cbn [scan_prefix].
  destruct (Ascii.eqb c0 "0"); [|now exists []].
  destruct r0 as [|cx rx]; [now exists [c0]|].
  destruct (is_x cx); [|now exists [c0]].
  destruct ((base0 =? 0) || (base0 =? 16)); [now exists [c0; cx] | now exists [c0]].
Qed.

Lemma scan_unsigned_split (base0 : Z) (s : bytes) :
  exists pre, s = pre ++ snd (scan_unsigned base0 s).
Proof.
  unfold scan_unsigned.
  destruct (scan_prefix_split base0 s) as (p1 & H1).
  destruct (scan_prefix base0 s) as [[base lead0] s2]. cbn [snd] in H1.
  pose proof (read_digits_split (if base =? 0 then 10 else base) s2) as H2.
  destruct (read_digits (if base =? 0 then 10 else base) s2) as [ds s3].
  cbn [fst snd] in H2.
  exists (p1 ++ ds).
  destruct ds as [|d ds']; destruct lead0; cbn [snd];
    rewrite H1, H2; now rewrite app_assoc.
Qed.

(** The unread input after a read is an end part of the input before. *)
Lemma read_outcome_split (inp : bytes) :
  exists consumed, inp = consumed ++ snd (read_outcome inp).
Proof.
  destruct (skip_space_split inp) as (ws & Hws & _).
  rewrite read_outcome_eq.
  destruct (skip_space inp) as [|c r].
  - exists inp. now rewrite app_nil_r.
  - destruct (scan_unsigned_split 0 (after_sign c r)) as (pre & Hpre).
    assert (exists sg, c :: r = sg ++ after_sign c r) as (sg & Hsg).
    { unfold after_sign. destruct (is_sign c); [now exists [c] | now exists []]. }
    exists (ws ++ sg ++ pre).
    rewrite Hws, Hsg at 1. rewrite Hpre at 1.
    destruct (scan_unsigned 0 (after_sign c r)) as [[m|] s3]; cbn [snd];
      now rewrite <- !app_assoc.
Qed.

Lemma firstn_consumed (consumed rest : bytes) :
  firstn (List.length (consumed ++ rest) - List.length rest) (consumed ++ rest)
  = consumed.
Proof.
  rewrite length_app, Nat.add_sub.
  rewrite firstn_app, Nat.sub_diag, firstn_all. cbn. now rewrite app_nil_r.
Qed.

(** A call of [tiny_input] takes bytes from the front of the input only:
    the input before the call is the bytes the read consumed, as the
    history records them, followed by the input left unread. *)
Theorem tiny_input_consumes_prefix (w : world) :
  exists consumed,
    stdin_rest w = consumed ++ stdin_rest (execState tiny_input w) /\
    trace (execState tiny_input w)
      = trace w ++ [EvWrite (lit "Input: "); EvFlush; EvScan consumed].
Proof.
  rewrite tiny_input_world. cbn [stdin_rest trace]. unfold input_events.
  destruct (read_outcome_split (stdin_rest w)) as (consumed & H).
  revert H. generalize (snd (read_outcome (stdin_rest w))). intros rest H.
  exists consumed. split; [exact H|].
  rewrite H. now rewrite firstn_consumed.
Qed.

(* --------------------------------------------------------------------- *)
(** ** Failed reads                                                       *)
(* --------------------------------------------------------------------- *)

Lemma scan_unsigned_none_rest (s : bytes) :
  fst (scan_unsigned 0 s) = None -> snd (scan_unsigned 0 s) = s.
Proof.
  intros H. pose proof (proj1 (scan_unsigned_none_iff s) H) as Ht.
  assert (hd "1"%char s <> "0"%char) as Hhd.
  { destruct s as [|c r]; [discriminate|]. cbn [hd]. intros ->. discriminate Ht. }
  rewrite (scan_unsigned_no_zero s Hhd), Ht. reflexivity.
Qed.

Lemma read_outcome_failure (inp : bytes) :
  read_status (fst (read_outcome inp)) <> 1 ->
  read_result (fst (read_outcome inp)) = Vundef /\
  snd (read_outcome inp) = after_failure inp.
Proof.
  unfold after_failure. rewrite read_outcome_eq.
  destruct (skip_space inp) as [|c r]; [now split|].
  pose proof (scan_unsigned_none_rest (after_sign c r)) as H.
  destruct (scan_unsigned 0 (after_sign c r)) as [[m|] s3]; cbn [fst snd] in *.
  - intros K. now elim K.
  - intros _. split; [reflexivity | now apply H].
Qed.

(** A failed read consumes the white space before the offending text and
    at most one sign character, and nothing else: what is not a number
    stays on the input.  The call returns its unassigned local. *)
Theorem tiny_input_failure_leaves_input (w : world) :
  fst (evalState tiny_input_read w) <> 1 ->
  evalState tiny_input w = Vundef /\
  stdin_rest (execState tiny_input w) = after_failure (stdin_rest w).
Proof.
  rewrite tiny_input_status, tiny_input_value, tiny_input_world.
  cbn [stdin_rest]. apply read_outcome_failure.
Qed.

Lemma tiny_input_failure_leaves_input_witness :
  evalState tiny_input (console IOLBF (lit "  -abc")) = Vundef /\
  stdin_rest (execState tiny_input (console IOLBF (lit "  -abc"))) = lit "abc".
Proof.
  apply (tiny_input_failure_leaves_input (console IOLBF (lit "  -abc"))).
  discriminate.
Defined.

Lemma skip_space_idem (s : bytes) : skip_space (skip_space s) = skip_space s.
Proof.
  induction s as [|c r IH]; [reflexivity|].
  cbn [skip_space]. destruct (isspace c) eqn:E; [exact IH|].
  cbn [skip_space]. now rewrite E.
Qed.

Lemma run_tiny_input_times_succ (n : nat) (w : world) :
  runState (tiny_input_times (S n)) w
  = (fst (runState tiny_input w)
       :: fst (runState (tiny_input_times n) (snd (runState tiny_input w))),
     snd (runState (tiny_input_times n) (snd (runState tiny_input w)))).
Proof.
  change (runState (tiny_input_times (S n)) w)
    with (let (v, w1) := runState tiny_input w in
          let (vs, w2) := runState (tiny_input_times n) w1 in
          (v :: vs, w2)).
  rewrite run_tiny_input. cbv zeta. cbn [fst snd].
  destruct (runState (tiny_input_times n) _) as [vs w2]. reflexivity.
Qed.

(** Input that is not a number blocks the stream: when a read fails and
    the offending text does not start with a sign, the text stays where
    it is, so every later call fails as well and the input never moves
    past it. *)
Theorem tiny_input_failure_persists (n : nat) (w : world) :
  fst (evalState tiny_input_read w) <> 1 ->
  starts_with is_sign (skip_space (stdin_rest w)) = false ->
  evalState (tiny_input_times (S n)) w = repeat Vundef (S n) /\
  stdin_rest (execState (tiny_input_times (S n)) w) = skip_space (stdin_rest w).
Proof.
  rewrite tiny_input_status. unfold evalState, execState. revert w.
  induction n as [|n IH]; intros w Hfail Hsign;
    rewrite run_tiny_input_times_succ, run_tiny_input; cbv zeta; cbn [fst snd];
    destruct (read_outcome_failure _ Hfail) as [Hv Hrest];
    assert (after_failure (stdin_rest w) = skip_space (stdin_rest w)) as Hsame
      by (unfold after_failure, after_sign;
          destruct (skip_space (stdin_rest w)) as [|c r]; [reflexivity|];
          cbn [starts_with] in Hsign; now rewrite Hsign);
    rewrite Hv, Hrest, Hsame.
  - split; reflexivity.
  - match goal with
    | |- context [runState (tiny_input_times (S n)) ?w1] =>
        destruct (IH w1) as [IHv IHr]
    end.
    + cbn [stdin_rest]. unfold read_outcome in *. now rewrite skip_space_idem.
    + cbn [stdin_rest]. now rewrite skip_space_idem.
    + rewrite IHv, IHr. cbn [stdin_rest]. rewrite skip_space_idem.
      split; reflexivity.
Qed.

Lemma tiny_input_failure_persists_witness :
  evalState (tiny_input_times 3) (console IOLBF (lit " seven" ++ [nl]))
    = [Vundef; Vundef; Vundef] /\
  stdin_rest (execState (tiny_input_times 3) (console IOLBF (lit " seven" ++ [nl])))
    = lit "seven" ++ [nl].
Proof.
  apply (tiny_input_failure_persists 2 (console IOLBF (lit " seven" ++ [nl]))).
  - discriminate.
  - reflexivity.
Defined.

(* --------------------------------------------------------------------- *)
(** ** Successful reads of decimal tokens                                 *)
(* --------------------------------------------------------------------- *)

(** A plain token is converted to its decimal value, brought into the
    64-bit range, and the read stops right behind it. *)
Lemma read_outcome_plain_full (inp : bytes) (v : Z) :
  read_decimal inp = Some v -> plain_token inp = true ->
  read_outcome inp = (ScanValue (clamp64 v), after_token inp).
Proof.
  unfold plain_token.
  rewrite read_decimal_eq, read_outcome_eq, decimal_token_eq, after_token_eq.
  destruct (skip_space inp) as [|c r]; [discriminate|].
  destruct (take_dec_digits (after_sign c r)) as [|d ds] eqn:Et; [discriminate|].
  intros [= <-] Hplain.
  apply andb_true_iff in Hplain. destruct Hplain as [Hcan Hx].
  destruct (take_dec_digits_hd _ _ _ Et) as (r0 & Hs & Hr0).
  destruct (Ascii.eqb_spec d "0") as [->|Hd].
  - destruct ds as [|d' ds']; [|discriminate Hcan].
    rewrite Hs in *. cbn [List.length skipn] in *.
    rewrite scan_unsigned_lone_zero; [reflexivity | exact Hr0 |].
    destruct r0 as [|cx rx]; [reflexivity|].
    cbn [Ascii.eqb Bool.eqb andb] in Hx. now apply negb_true_iff in Hx.
  - rewrite scan_unsigned_no_zero by (rewrite Hs; exact Hd).
    now rewrite Et.
Qed.

(** A number too large or too small for 64 bits is not rejected: the read
    succeeds and the call returns the nearest bound of the range. *)
Theorem tiny_input_out_of_range (w : world) (v : Z) :
  read_decimal (stdin_rest w) = Some v ->
  plain_token (stdin_rest w) = true ->
  fst (evalState tiny_input_read w) = 1 /\
  (INT64_MAX < v -> evalState tiny_input w = Vint INT64_MAX) /\
  (v < INT64_MIN -> evalState tiny_input w = Vint INT64_MIN).
Proof.
  intros Hv Hp. rewrite tiny_input_status, tiny_input_value.
  rewrite (read_outcome_plain_full _ v Hv Hp). cbn [fst read_status read_result].
  split; [reflexivity|]. unfold clamp64.
  assert (INT64_MIN <= INT64_MAX) by discriminate.
  split; intros H'.
  - destruct (Z.ltb_spec v INT64_MIN); [lia|].
    destruct (Z.ltb_spec INT64_MAX v); [reflexivity | lia].
  - destruct (Z.ltb_spec v INT64_MIN); [reflexivity | lia].
Qed.

Lemma tiny_input_out_of_range_witness :
  evalState tiny_input (console IOLBF (lit "-9223372036854775809" ++ [nl]))
  = Vint INT64_MIN.
Proof.
  apply (proj2 (proj2 (tiny_input_out_of_range
           (console IOLBF (lit "-9223372036854775809" ++ [nl]))
           (-9223372036854775809) eq_refl eq_refl))).
  reflexivity.
Defined.

(** The read stops right behind the token: after a successful read of a
    plain token the unread input is what followed the token, so the
    newline that ends the line is still pending. *)
Theorem tiny_input_stops_after_token (w : world) (v : Z) :
  read_decimal (stdin_rest w) = Some v ->
  plain_token (stdin_rest w) = true ->
  stdin_rest (execState tiny_input w) = after_token (stdin_rest w) /\
  skip_space (stdin_rest w)
    = decimal_token (stdin_rest w) ++ stdin_rest (execState tiny_input w).
Proof.
  intros Hv Hp. rewrite tiny_input_world. cbn [stdin_rest].
  rewrite (read_outcome_plain_full _ v Hv Hp). cbn [snd].
  split; [reflexivity|].
  unfold after_token, decimal_token.
  destruct (skip_space (stdin_rest w)) as [|c r]; [reflexivity|].
  assert (forall s, s = take_dec_digits s ++ skipn (List.length (take_dec_digits s)) s)
    as Hsplit.
  { intros s. pose proof (read_digits_split 10 s) as K.
    now rewrite read_digits_10 in K. }
  destruct (is_sign c).
  - cbn [List.length skipn app]. f_equal. apply Hsplit.
  - apply Hsplit.
Qed.

Lemma tiny_input_stops_after_token_witness :
  stdin_rest (execState tiny_input (console IOLBF (lit "12 34" ++ [nl])))
  = lit " 34" ++ [nl].
Proof.
  exact (proj1 (tiny_input_stops_after_token
                  (console IOLBF (lit "12 34" ++ [nl])) 12 eq_refl eq_refl)).
Defined.

(** What the read does on a line that holds a printed number. *)
Lemma read_outcome_printed (x : Z) (tail : bytes) :
  int64_range x ->
  read_outcome (decimal x ++ nl :: tail) = (ScanValue x, nl :: tail).
Proof.
  intros Hx. rewrite <- (fmt_signed_decimal x Hx).
  destruct (decimal_token_printed x tail Hx) as (Htok & Hafter & Hdig).
  rewrite (read_outcome_plain_full _ x).
  - now rewrite Hafter, clamp64_id.
  - unfold read_decimal. rewrite Htok. now apply fmt_signed_parse.
  - unfold plain_token. rewrite Htok, Hafter, Hdig.
    assert (0 <= Z.abs x < 2 ^ 64) as Hr.
    { unfold int64_range, INT64_MIN, INT64_MAX in Hx.
      change (2 ^ 63) with 9223372036854775808 in Hx.
      change (2 ^ 64) with 18446744073709551616. lia. }
    rewrite (digits_of_canonical _ _ (itoa_word_digits _ Hr)).
    destruct (itoa_word (Z.abs x)) as [|d [|d' ds']]; try reflexivity.
    change (is_x nl) with false. now rewrite andb_false_r.
Qed.

Lemma read_outcome_skip (ws t : bytes) :
  forallb isspace ws = true -> read_outcome (ws ++ t) = read_outcome t.
Proof. intros H. unfold read_outcome. now rewrite skip_space_app. Qed.

(** C10.  [tiny_input] skips white space before the number.  Spaces,
    tabs and newlines are white space.  For every white-space prefix [ws]
    and every input [t], the call on [ws ++ t] returns a number exactly
    when the call on [t] returns it, with the same value of the read and
    the same input left unread; and the token behind the white space is
    converted: with the rendering of a signed 64-bit [x] as token, the
    call returns [x] behind any white space. *)
Theorem tiny_input_skips_space (w : world) (ws t rest : bytes) (x : Z) :
  forallb isspace ws = true ->
  int64_range x ->
  (forall z, evalState tiny_input (with_stdin w (ws ++ t)) = Vint z
             <-> evalState tiny_input (with_stdin w t) = Vint z) /\
  fst (evalState tiny_input_read (with_stdin w (ws ++ t)))
    = fst (evalState tiny_input_read (with_stdin w t)) /\
  stdin_rest (execState tiny_input (with_stdin w (ws ++ t)))
    = stdin_rest (execState tiny_input (with_stdin w t)) /\
  evalState tiny_input (with_stdin w (ws ++ decimal x ++ nl :: rest)) = Vint x /\
  stdin_rest (execState tiny_input (with_stdin w (ws ++ decimal x ++ nl :: rest)))
    = nl :: rest /\
  isspace " " = true /\ isspace (ascii_of_nat 9) = true /\ isspace nl = true.
Proof.
  intros H Hx.
  rewrite !tiny_input_value, !tiny_input_status, !tiny_input_world.
  cbn [stdin_rest with_stdin].
  rewrite !(read_outcome_skip ws _ H), (read_outcome_printed x rest Hx).
  repeat split; trivial.
Qed.

Lemma tiny_input_skips_space_witness :
  forallb isspace [" "; ascii_of_nat 9; nl]%char = true /\
  int64_range (-12) /\
  evalState tiny_input
    (with_stdin (console IOLBF [])
       ([" "; ascii_of_nat 9; nl]%char ++ decimal (-12) ++ nl :: lit "7"))
  = Vint (-12) /\
  stdin_rest (execState tiny_input
    (with_stdin (console IOLBF [])
       ([" "; ascii_of_nat 9; nl]%char ++ decimal (-12) ++ nl :: lit "7")))
  = nl :: lit "7".
Proof.
  assert (int64_range (-12)) as Hx by (split; discriminate).
  split; [reflexivity|]. split; [exact Hx|].
  pose proof (tiny_input_skips_space (console IOLBF [])
                [" "; ascii_of_nat 9; nl]%char [] (lit "7") (-12) eq_refl Hx) as H.
  split; [exact (proj1 (proj2 (proj2 (proj2 H))))
         | exact (proj1 (proj2 (proj2 (proj2 (proj2 H)))))].
Defined.

Lemma read_lines_gen (rest : bytes) (xs : list Z) :
  forall (ws : bytes) (w : world),
    forallb isspace ws = true ->
    Forall int64_range xs ->
    fst (runState (tiny_input_times (List.length xs))
                  (with_stdin w (ws ++ decimal_lines xs ++ rest)))
      = map Vint xs /\
    stdin_rest (snd (runState (tiny_input_times (List.length xs))
                              (with_stdin w (ws ++ decimal_lines xs ++ rest))))
      = match xs with [] => ws ++ rest | _ => nl :: rest end.
Proof.
  induction xs as [|x xs IH]; intros ws w Hws Hxs.
  - split; reflexivity.
  - inversion Hxs as [|x' xs' Hx Hxs']; subst.
    cbn [List.length]. rewrite run_tiny_input_times_succ, run_tiny_input.
    cbv zeta. cbn [fst snd stdin_rest with_stdin].
    rewrite !(read_outcome_skip ws _ Hws).
    unfold decimal_lines. cbn [map List.concat].
    fold (decimal_lines xs). rewrite <- !app_assoc. cbn [app].
    rewrite !(read_outcome_printed x _ Hx). cbn [fst snd read_result].
    match goal with
    | |- context [runState (tiny_input_times (List.length xs)) ?w1] =>
        set (W := w1)
    end.
    assert (W = with_stdin W ([nl] ++ decimal_lines xs ++ rest)) as HW
      by reflexivity.
    destruct (IH [nl] W eq_refl Hxs') as [IHv IHr].
    rewrite <- HW in IHv, IHr.
    split.
    + cbn [map]. f_equal. exact IHv.
    + rewrite IHr. destruct xs; reflexivity.
Qed.

(** Reading numbers line by line: when the pending input is the base-10
    renderings of signed 64-bit numbers, one per line, as many calls of
    [tiny_input] as there are lines return these numbers in order, and
    only the newline of the last line is left of them. *)
Theorem tiny_input_reads_lines (w : world) (xs : list Z) (rest : bytes) :
  Forall int64_range xs ->
  evalState (tiny_input_times (List.length xs))
            (with_stdin w (decimal_lines xs ++ rest))
    = map Vint xs /\
  (xs <> [] ->
   stdin_rest (execState (tiny_input_times (List.length xs))
                         (with_stdin w (decimal_lines xs ++ rest)))
   = nl :: rest).
Proof.
  intros Hxs. destruct (read_lines_gen rest xs [] w eq_refl Hxs) as [Hv Hr].
  cbn [app] in Hv, Hr. split; [exact Hv|].
  intros Hne. unfold execState. rewrite Hr. destruct xs; [contradiction|reflexivity].
Qed.

Lemma tiny_input_reads_lines_witness :
  evalState (tiny_input_times 3)
            (with_stdin (console IOLBF []) (decimal_lines [7; -30; 0] ++ lit "end"))
  = [Vint 7; Vint (-30); Vint 0].
Proof.
  assert (Forall int64_range [7; -30; 0]) as H
    by (repeat constructor; discriminate).
  exact (proj1 (tiny_input_reads_lines (console IOLBF []) [7; -30; 0] (lit "end") H)).
Defined.

(* --------------------------------------------------------------------- *)
(** ** The line that tiny_print writes                                    *)
(* --------------------------------------------------------------------- *)

Lemma dec_fold_pow (ds : bytes) (acc : Z) :
  forallb is_dec_digit ds = true -> 0 <= acc ->
  acc * 10 ^ Z.of_nat (List.length ds)
  <= fold_left (fun a c => 10 * a + dec_digit_value c) ds acc.
Proof.
  revert acc.
  induction ds as [|c r IH]; intros acc Hd Hacc; cbn [fold_left forallb List.length] in *.
  - cbn. lia.
  - apply andb_true_iff in Hd. destruct Hd as [Hc Hr].
    pose proof (dec_digit_value_range c Hc) as Hv.
    assert (0 <= 10 * acc + dec_digit_value c) as Hacc' by lia.
    specialize (IH _ Hr Hacc').
    rewrite Nat2Z.inj_succ, Z.pow_succ_r by lia.
    assert (0 < 10 ^ Z.of_nat (List.length r)) by (apply Z.pow_pos_nonneg; lia).
    nia.
Qed.

(** The digits of a 64-bit magnitude are at most twenty; those of a
    signed 64-bit number at most nineteen. *)
Lemma digits_of_length (v : Z) (ds : bytes) (n : nat) :
  digits_of v ds -> 0 <= v < 10 ^ Z.of_nat n -> (1 <= List.length ds <= Nat.max 1 n)%nat.
Proof.
  intros (Hall & Hne & Hhd & Hz & Hval) Hv.
  destruct (Z.eq_dec v 0) as [E|E]; [rewrite (Hz E); cbn [List.length]; lia|].
  destruct ds as [|c r]; [contradiction|]. cbn [List.length].
  specialize (Hhd E). cbn [hd] in Hhd.
  cbn [forallb] in Hall. apply andb_true_iff in Hall. destruct Hall as [Hc Hr].
  pose proof (dec_digit_value_range c Hc) as Hcv.
  assert (dec_digit_value c <> 0) as Hnz.
  { intros K. apply Hhd. rewrite <- (dec_digit_char_inv c Hc), K. reflexivity. }
  unfold dec_value in Hval. cbn [fold_left] in Hval.
  assert (0 <= 10 * 0 + dec_digit_value c) as Hacc by lia.
  pose proof (dec_fold_pow r _ Hr Hacc) as Hlow.
  assert (0 < 10 ^ Z.of_nat (List.length r)) by (apply Z.pow_pos_nonneg; lia).
  assert (10 ^ Z.of_nat (List.length r) < 10 ^ Z.of_nat n) as Hlt by nia.
  apply Z.pow_lt_mono_r_iff in Hlt; lia.
Qed.

Lemma dec_digits_no_nl (ds : bytes) :
  forallb is_dec_digit ds = true -> filter is_nl ds = [].
Proof.
  induction ds as [|c r IH]; intros H; [reflexivity|].
  cbn [forallb] in H. apply andb_true_iff in H. destruct H as [Hc Hr].
  cbn [filter]. rewrite (IH Hr).
  each_digit_char c Hc; reflexivity.
Qed.

(** [tiny_print] writes one line: the bytes it emits hold a single
    newline, the last byte, and with the label and the newline they are
    between 10 and 29 bytes for every signed 64-bit number. *)
Theorem tiny_print_one_line (x : Z) (w : world) :
  int64_range x ->
  exists line,
    stdout_all (execState (tiny_print x) w) = stdout_all w ++ line ++ [nl] /\
    count_nl line = 0%nat /\
    (10 <= List.length (line ++ [nl]) <= 29)%nat.
Proof.
  intros Hx. exists (lit "Output: " ++ fmt_signed x).
  unfold execState. rewrite run_tiny_print. cbn [snd].
  rewrite stream_write_all, <- app_assoc. split; [reflexivity|].
  destruct (fmt_signed_shape x Hx) as (ds & Hfmt & Hds).
  assert (0 <= Z.abs x < 10 ^ Z.of_nat 19) as Hr.
  { unfold int64_range, INT64_MIN, INT64_MAX in Hx.
    change (2 ^ 63) with 9223372036854775808 in Hx.
    change (10 ^ Z.of_nat 19) with 10000000000000000000. lia. }
  pose proof (digits_of_length _ _ 19 Hds Hr) as Hlen.
  destruct Hds as (Hall & _).
  rewrite Hfmt. split.
  - unfold count_nl. rewrite !filter_app, (dec_digits_no_nl ds Hall).
    destruct (x <? 0); reflexivity.
  - rewrite !length_app. change (List.length (lit "Output: ")) with 8%nat.
    cbn [List.length Nat.max] in *. destruct (x <? 0); cbn [List.length]; lia.
Qed.

Lemma tiny_print_one_line_witness :
  int64_range (-9223372036854775808) /\
  exists line,
    stdout_all (execState (tiny_print (-9223372036854775808)) (console IOFBF []))
      = stdout_all (console IOFBF []) ++ line ++ [nl] /\
    count_nl line = 0%nat /\
    (10 <= List.length (line ++ [nl]) <= 29)%nat.
Proof.
  assert (int64_range (-9223372036854775808)) as H by (split; discriminate).
  split; [exact H|].
  exact (tiny_print_one_line (-9223372036854775808) (console IOFBF []) H).
Defined.

(** Different numbers give different lines: from what [tiny_print] wrote
    the number can be told. *)
Theorem tiny_print_injective (x y : Z) (w : world) :
  int64_range x -> int64_range y ->
  stdout_all (execState (tiny_print x) w) = stdout_all (execState (tiny_print y) w) ->
  x = y.
Proof.
  intros Hx Hy. unfold execState. rewrite !run_tiny_print. cbn [snd].
  rewrite !stream_write_all. intros H.
  apply app_inv_head in H. apply app_inv_head in H. apply app_inv_tail in H.
  pose proof (fmt_signed_parse x Hx) as Px. rewrite H in Px.
  rewrite (fmt_signed_parse y Hy) in Px. now injection Px.
Qed.

Lemma tiny_print_injective_witness :
  int64_range 5 /\ (2 + 3 = 5).
Proof.
  assert (int64_range 5) as H by (split; discriminate).
  split; [exact H|].
  apply (tiny_print_injective (2 + 3) 5 (console IOLBF []) H H).
  reflexivity.
Defined.

(* --------------------------------------------------------------------- *)
(** ** Buffering of the output                                            *)
(* --------------------------------------------------------------------- *)

Lemma split_last_nl_ends (b : bytes) :
  split_last_nl (b ++ [nl]) = (b ++ [nl], []).
Proof.
  induction b as [|c r IH]; [reflexivity|].
  cbn [app split_last_nl]. rewrite IH.
  assert (existsb is_nl (c :: r ++ [nl]) = true) as ->; [|reflexivity].
  cbn [existsb]. rewrite existsb_app. cbn [existsb].
  change (is_nl nl) with true. cbn [orb]. now rewrite !orb_true_r.
Qed.

(** On an unbuffered or line-buffered standard output [tiny_print] needs
    no flush: its line ends in a newline, so the call itself delivers the
    line and everything that was pending before it, and leaves the buffer
    empty. *)
Theorem tiny_print_delivery (x : Z) (w : world) :
  int64_range x ->
  stdout_mode w <> IOFBF ->
  stdout_dev (execState (tiny_print x) w)
    = stdout_dev w ++ stdout_buf w ++ lit "Output: " ++ decimal x ++ [nl] /\
  stdout_buf (execState (tiny_print x) w) = [].
Proof.
  intros Hx Hm. unfold execState. rewrite run_tiny_print. cbn [snd].
  rewrite (fmt_signed_decimal x Hx). unfold stream_write.
  destruct (stdout_mode w); [| |now elim Hm].
  - cbn [stdout_dev stdout_buf]. split; reflexivity.
  - replace (stdout_buf w ++ lit "Output: " ++ decimal x ++ [nl])
      with ((stdout_buf w ++ lit "Output: " ++ decimal x) ++ [nl])
      by (now rewrite <- !app_assoc).
    rewrite split_last_nl_ends. cbn [stdout_dev stdout_buf].
    split; reflexivity.
Qed.

Lemma tiny_print_delivery_witness :
  int64_range 3 /\
  stdout_dev (execState (tiny_print 3)
                (mkWorld [] IOLBF (lit "Input: ") (lit "shown") []))
  = lit "shownInput: Output: 3" ++ [nl].
Proof.
  assert (int64_range 3) as H by (split; discriminate).
  split; [exact H|].
  refine (proj1 (tiny_print_delivery 3
                   (mkWorld [] IOLBF (lit "Input: ") (lit "shown") []) H _)).
  discriminate.
Defined.

Lemma run_tiny_print_all_cons (x : Z) (xs : list Z) (w : world) :
  runState (tiny_print_all (x :: xs)) w
  = runState (tiny_print_all xs) (snd (runState (tiny_print x) w)).
Proof.
  change (runState (tiny_print_all (x :: xs)) w)
    with (let (_, w1) := runState (tiny_print x) w in
          runState (tiny_print_all xs) w1).
  now rewrite run_tiny_print.
Qed.

Lemma tiny_print_all_out (xs : list Z) :
  forall w,
    Forall int64_range xs ->
    stdout_all (execState (tiny_print_all xs) w) = stdout_all w ++ output_lines xs /\
    stdin_rest (execState (tiny_print_all xs) w) = stdin_rest w.
Proof.
  unfold execState.
  induction xs as [|x xs IH]; intros w Hxs.
  - cbn. now rewrite app_nil_r.
  - inversion Hxs as [|x' xs' Hx Hxs']; subst.
    rewrite run_tiny_print_all_cons, run_tiny_print. cbn [snd].
    destruct (IH (stream_write (lit "Output: " ++ fmt_signed x ++ [nl]) w) Hxs')
      as [Ho Hi].
    rewrite Ho, Hi, stream_write_all, stream_write_stdin.
    rewrite (fmt_signed_decimal x Hx). unfold output_lines. cbn [map List.concat].
    now rewrite <- !app_assoc.
Qed.

(** Lines printed before a read are on the device, in the order of the
    calls, when the read starts: after any number of [tiny_print] calls,
    in every buffering mode, [tiny_input] starts reading with the device
    holding everything submitted before, the printed lines and then the
    prompt, and with the buffer empty.  The prints leave the input
    untouched, so a read that returns a number without them returns the
    same number after them. *)
Theorem prints_then_input (xs : list Z) (w : world) :
  Forall int64_range xs ->
  stdout_dev (before_read (execState (tiny_print_all xs) w))
    = stdout_all w ++ output_lines xs ++ lit "Input: " /\
  stdout_buf (before_read (execState (tiny_print_all xs) w)) = [] /\
  stdin_rest (execState (tiny_print_all xs) w) = stdin_rest w /\
  (forall z, evalState tiny_input w = Vint z ->
             evalState (tiny_print_all xs ;; tiny_input) w = Vint z).
Proof.
  intros Hxs. destruct (tiny_print_all_out xs w Hxs) as [Ho Hi].
  rewrite run_before_read. cbn [stdout_dev stdout_buf].
  rewrite Ho, <- app_assoc. split; [reflexivity|]. split; [reflexivity|].
  split; [exact Hi|].
  change (evalState (tiny_print_all xs ;; tiny_input) w)
    with (fst (let (_, w1) := runState (tiny_print_all xs) w in runState tiny_input w1)).
  unfold execState in Hi.
  destruct (runState (tiny_print_all xs) w) as [u w1]. cbn [snd] in Hi.
  change (fst (runState tiny_input w1)) with (evalState tiny_input w1).
  intros z. now rewrite !tiny_input_value, Hi.
Qed.

Lemma prints_then_input_witness :
  Forall int64_range [1; -2] /\
  stdout_dev (before_read (execState (tiny_print_all [1; -2]) (console IOFBF (lit "9"))))
    = lit "Output: 1" ++ [nl] ++ lit "Output: -2" ++ [nl] ++ lit "Input: " /\
  evalState (tiny_print_all [1; -2] ;; tiny_input) (console IOFBF (lit "9")) = Vint 9.
Proof.
  assert (Forall int64_range [1; -2]) as H by (repeat constructor; discriminate).
  split; [exact H|].
  pose proof (prints_then_input [1; -2] (console IOFBF (lit "9")) H) as K.
  split; [exact (proj1 K)|].
  exact (proj2 (proj2 (proj2 K)) 9 eq_refl).
Defined.

(** The runtime cannot read its own output: on a line written by
    [tiny_print], for any number, the read of [tiny_input] is a matching
    failure at the label; the call returns its unassigned local and the
    line stays on the input. *)
Theorem tiny_input_rejects_printed_line (x : Z) (mode : buf_mode) (w : world)
        (rest : bytes) :
  let line := stdout_all (execState (tiny_print x) (console mode [])) in
  evalState tiny_input (with_stdin w (line ++ rest)) = Vundef /\
  fst (evalState tiny_input_read (with_stdin w (line ++ rest))) = 0 /\
  stdin_rest (execState tiny_input (with_stdin w (line ++ rest))) = line ++ rest.
Proof.
  cbv zeta.
  assert (stdout_all (execState (tiny_print x) (console mode []))
          = lit "Output: " ++ fmt_signed x ++ [nl]) as ->.
  { unfold execState. rewrite run_tiny_print. cbn [snd].
    now rewrite stream_write_all. }
  rewrite tiny_input_value, tiny_input_status, tiny_input_world.
  cbn [stdin_rest with_stdin stdout_all console stdout_dev stdout_buf app].
  repeat split.
Qed.

(* --------------------------------------------------------------------- *)
(** ** Numbers with a base prefix                                         *)
(* --------------------------------------------------------------------- *)

Lemma hex_digit_cases (v : Z) :
  0 <= v < 16 ->
  v = 0 \/ v = 1 \/ v = 2 \/ v = 3 \/ v = 4 \/ v = 5 \/ v = 6 \/ v = 7 \/
  v = 8 \/ v = 9 \/ v = 10 \/ v = 11 \/ v = 12 \/ v = 13 \/ v = 14 \/ v = 15.
Proof. lia. Qed.

Ltac each_hex_digit v H :=
  let K := fresh in
  pose proof (hex_digit_cases v H) as K;
  repeat (destruct K as [K|K]; [subst v|]); [..|subst v].

Lemma digit_below_range (base : Z) (d : Z * bool) :
  base <= 16 -> digit_below base d = true -> 0 <= fst d < 16 /\ fst d < base.
Proof.
  unfold digit_below. intros Hb H. apply andb_true_iff in H.
  destruct H as [H1 H2]. apply Z.leb_le in H1. apply Z.ltb_lt in H2. lia.
Qed.

(** The scanner reads a digit character as the value it was written
    for, in either case of the letters. *)
Lemma hex_char_value (d : Z * bool) :
  digit_below 16 d = true -> digit_value (hex_char d) = Some (fst d).
Proof.
  intros H. destruct (digit_below_range 16 d (Z.le_refl _) H) as [Hr _].
  destruct d as [v up]. cbn [fst] in *.
  each_hex_digit v Hr; destruct up; reflexivity.
Qed.

Lemma hex_char_not_x (d : Z * bool) :
  digit_below 16 d = true -> is_x (hex_char d) = false.
Proof.
  intros H. destruct (digit_below_range 16 d (Z.le_refl _) H) as [Hr _].
  destruct d as [v up]. cbn [fst] in *.
  each_hex_digit v Hr; destruct up; reflexivity.
Qed.

Lemma digit_below_16 (base : Z) (d : Z * bool) :
  base <= 16 -> digit_below base d = true -> digit_below 16 d = true.
Proof.
  intros Hb H. destruct (digit_below_range base d Hb H) as [Hr _].
  unfold digit_below. apply andb_true_iff.
  split; [apply Z.leb_le | apply Z.ltb_lt]; lia.
Qed.

Lemma hex_char_in_base (base : Z) (d : Z * bool) :
  base <= 16 -> digit_below base d = true -> is_digit_in base (hex_char d) = true.
Proof.
  intros Hb H. unfold is_digit_in.
  rewrite (hex_char_value d (digit_below_16 base d Hb H)).
  apply Z.ltb_lt. now destruct (digit_below_range base d Hb H).
Qed.

Lemma read_digits_written (base : Z) (ds : list (Z * bool)) (rest : bytes) :
  base <= 16 ->
  forallb (digit_below base) ds = true ->
  starts_with (is_digit_in base) rest = false ->
  read_digits base (map hex_char ds ++ rest) = (map hex_char ds, rest).
Proof.
  intros Hb Hds Hrest. induction ds as [|d r IH].
  - cbn [map app]. destruct rest as [|c t]; [reflexivity|].
    cbn [starts_with] in Hrest. cbn [read_digits]. now rewrite Hrest.
  - cbn [forallb] in Hds. apply andb_true_iff in Hds. destruct Hds as [Hd Hr].
    cbn [map app read_digits]. rewrite (hex_char_in_base base d Hb Hd).
    now rewrite (IH Hr).
Qed.

Lemma digits_to_Z_written (base : Z) (ds : list (Z * bool)) :
  base <= 16 ->
  forallb (digit_below base) ds = true ->
  digits_to_Z base (map hex_char ds) = horner base (map fst ds).
Proof.
  intros Hb. unfold digits_to_Z, horner. generalize 0 as acc.
  induction ds as [|d r IH]; intros acc Hds; [reflexivity|].
  cbn [forallb] in Hds. apply andb_true_iff in Hds. destruct Hds as [Hd Hr].
  cbn [map fold_left].
  rewrite (hex_char_value d (digit_below_16 base d Hb Hd)). now apply IH.
Qed.

Lemma scan_unsigned_hex (x : ascii) (ds : list (Z * bool)) (rest : bytes) :
  is_x x = true ->
  forallb (digit_below 16) ds = true ->
  starts_with (is_digit_in 16) rest = false ->
  scan_unsigned 0 ("0"%char :: x :: map hex_char ds ++ rest)
  = (Some (horner 16 (map fst ds)), rest).
Proof.
  intros Hx Hds Hrest. unfold scan_unsigned.
  cbn [scan_prefix Ascii.eqb Bool.eqb]. rewrite Hx. cbn [Z.eqb orb].
  rewrite (read_digits_written 16 ds rest (Z.le_refl _) Hds Hrest).
  rewrite <- (digits_to_Z_written 16 ds (Z.le_refl _) Hds).
  destruct (map hex_char ds); reflexivity.
Qed.

Lemma scan_unsigned_octal (ds : list (Z * bool)) (rest : bytes) :
  forallb (digit_below 8) ds = true ->
  starts_with (is_digit_in 8) rest = false ->
  (ds = [] -> starts_with is_x rest = false) ->
  scan_unsigned 0 ("0"%char :: map hex_char ds ++ rest)
  = (Some (horner 8 (map fst ds)), rest).
Proof.
  intros Hds Hrest Hx. unfold scan_unsigned.
  assert (8 <= 16) as Hb by lia.
  assert (scan_prefix 0 ("0"%char :: map hex_char ds ++ rest)
          = (8, true, map hex_char ds ++ rest)) as ->.
  { cbn [scan_prefix Ascii.eqb Bool.eqb].
    destruct ds as [|d r].
    - cbn [map app]. specialize (Hx eq_refl).
      destruct rest as [|c t]; [reflexivity|].
      cbn [starts_with] in Hx. now rewrite Hx.
    - cbn [map app]. cbn [forallb] in Hds.
      apply andb_true_iff in Hds. destruct Hds as [Hd _].
      now rewrite (hex_char_not_x d (digit_below_16 8 d Hb Hd)). }
  cbn [Z.eqb].
  rewrite (read_digits_written 8 ds rest Hb Hds Hrest).
  rewrite <- (digits_to_Z_written 8 ds Hb Hds).
  destruct (map hex_char ds); reflexivity.
Qed.

(** Both prefixed forms are read the same way once the number after the
    sign is known. *)
Lemma read_outcome_signed (ws : bytes) (s : option bool) (c : ascii)
      (t rest : bytes) (m : Z) :
  forallb isspace ws = true ->
  isspace c = false -> is_sign c = false ->
  scan_unsigned 0 (c :: t) = (Some m, rest) ->
  read_outcome (ws ++ sign_bytes s ++ c :: t)
  = (ScanValue (clamp64 (apply_sign s m)), rest).
Proof.
  intros Hws Hc Hs Hscan. rewrite (read_outcome_skip ws _ Hws), read_outcome_eq.
  destruct s as [[|]|]; cbn [sign_bytes app skip_space].
  - change (isspace "-") with false. cbv iota. unfold after_sign.
    change (is_sign "-") with true. cbv iota. now rewrite Hscan.
  - change (isspace "+") with false. cbv iota. unfold after_sign.
    change (is_sign "+") with true. cbv iota. now rewrite Hscan.
  - rewrite Hc. unfold after_sign, signed. rewrite Hs, Hscan.
    unfold is_sign in Hs. apply orb_false_iff in Hs. destruct Hs as [-> _].
    reflexivity.
Qed.

(** A number written with the prefix [0x] or [0X] is read in base
    sixteen, with digits in either case: after white space and an
    optional sign, the call returns the value the hexadecimal digits
    denote, if it fits in 64 bits, and stops at the first character that
    is not a hexadecimal digit.  With no digit after the prefix the value
    is zero. *)
Theorem tiny_input_hex (w : world) (ws : bytes) (s : option bool) (x : ascii)
        (ds : list (Z * bool)) (rest : bytes) :
  forallb isspace ws = true ->
  is_x x = true ->
  forallb (digit_below 16) ds = true ->
  starts_with (is_digit_in 16) rest = false ->
  int64_range (apply_sign s (horner 16 (map fst ds))) ->
  evalState tiny_input
    (with_stdin w (ws ++ sign_bytes s ++ "0"%char :: x :: map hex_char ds ++ rest))
  = Vint (apply_sign s (horner 16 (map fst ds))) /\
  stdin_rest (execState tiny_input
    (with_stdin w (ws ++ sign_bytes s ++ "0"%char :: x :: map hex_char ds ++ rest)))
  = rest.
Proof.
  intros Hws Hx Hds Hrest Hv.
  rewrite tiny_input_world, tiny_input_value.
  cbn [stdin_rest with_stdin].
  rewrite !(read_outcome_signed ws s "0" _ rest _ Hws eq_refl eq_refl
              (scan_unsigned_hex x ds rest Hx Hds Hrest)).
  cbn [fst snd read_result]. rewrite (clamp64_id _ Hv). split; reflexivity.
Qed.

Lemma tiny_input_hex_witness :
  stdin_rest (execState tiny_input
    (with_stdin (console IOLBF [])
       ([" "%char] ++ sign_bytes (Some true) ++ "0"%char :: "X"%char
          :: map hex_char [(1, false); (15, true); (10, false)] ++ lit "g")))
  = lit "g".
Proof.
  refine (proj2 (tiny_input_hex (console IOLBF []) [" "%char] (Some true) "X"
                   [(1, false); (15, true); (10, false)] (lit "g")
                   eq_refl eq_refl eq_refl eq_refl _)).
  split; discriminate.
Defined.

(** A number written with a leading [0] is read in base eight: after
    white space and an optional sign, the call returns the value the
    octal digits after the zero denote, if it fits in 64 bits, and stops
    at the first character that is not an octal digit, an 8 or a 9
    included. *)
Theorem tiny_input_octal (w : world) (ws : bytes) (s : option bool)
        (ds : list (Z * bool)) (rest : bytes) :
  forallb isspace ws = true ->
  forallb (digit_below 8) ds = true ->
  starts_with (is_digit_in 8) rest = false ->
  (ds = [] -> starts_with is_x rest = false) ->
  int64_range (apply_sign s (horner 8 (map fst ds))) ->
  evalState tiny_input
    (with_stdin w (ws ++ sign_bytes s ++ "0"%char :: map hex_char ds ++ rest))
  = Vint (apply_sign s (horner 8 (map fst ds))) /\
  stdin_rest (execState tiny_input
    (with_stdin w (ws ++ sign_bytes s ++ "0"%char :: map hex_char ds ++ rest)))
  = rest.
Proof.
  intros Hws Hds Hrest Hx Hv.
  rewrite tiny_input_world, tiny_input_value.
  cbn [stdin_rest with_stdin].
  rewrite !(read_outcome_signed ws s "0" _ rest _ Hws eq_refl eq_refl
              (scan_unsigned_octal ds rest Hds Hrest Hx)).
  cbn [fst snd read_result]. rewrite (clamp64_id _ Hv). split; reflexivity.
Qed.

Lemma tiny_input_octal_witness :
  evalState tiny_input
    (with_stdin (console IOLBF [])
       ([] ++ sign_bytes None ++ "0"%char
          :: map hex_char [(1, false); (7, false)] ++ lit "9" ++ [nl]))
  = Vint 15.
Proof.
  refine (proj1 (tiny_input_octal (console IOLBF []) [] None
                   [(1, false); (7, false)] (lit "9" ++ [nl])
                   eq_refl eq_refl eq_refl _ _)).
  - discriminate.
  - split; discriminate.
Defined.

Lemma tiny_input_reads_tiny_print_witness :
  int64_range (-42) /\
  evalState tiny_input (with_stdin (console IOLBF []) (fmt_signed (-42) ++ nl :: lit "x"))
  = Vint (-42).
Proof.
  assert (int64_range (-42)) as H by (split; discriminate).
  split; [exact H|].
  exact (tiny_input_reads_tiny_print (-42) (console IOLBF []) (lit "x") H).
Defined.
